(** * Wayback spam analysis: HTML parser and Wayback Machine adapter

    A shallow embedding of [htmlParser.js] ([extractTextContent],
    [extractMetaTags], [checkStopWords], [analyzeHtmlForSpam]) and of
    [lib/adapters/wayback/index.js] ([analyzeDomainForSpam],
    [analyzeDomainsForSpam]), with the properties of the specification
    stated over it.

    Modelling conventions.
    - A JavaScript string is the list of its code units.  The model covers
      code units below 256 (the Latin-1 range): [toLowerCase], the regular
      expression flag [i] and the whitespace class [\s] are the restrictions
      of the ECMAScript ones to that range.  Outside that range
      [toLowerCase] and the flag [i] do not always agree (the Kelvin sign
      U+212A is lowercased to [k], and [/k/i] does not match it), so the
      theorems below do not rest on their agreement.
    - A JavaScript number is an exact rational: counts are [nat], scores and
      percentages are [Q], and [Math.round] rounds half up.  The code
      computes in IEEE-754 doubles, where [Math.round(x * 100) / 100] can
      fall one hundredth away from the exact rounding when [x * 100] is
      within the rounding error of a half: 23 snapshots flagged out of 160
      are reported as 14.37, the exact rounding of 14.375 being 14.38.  So
      the theorems about a rounded field bound its distance to the quotient
      it rounds ([within]) and do not equate it with an exact rounding; the
      lemmas that do, such as [checkStopWords_result], describe the model
      and serve the proofs.
    - A function that can throw returns [Res]; [try]/[catch] is [tryCatch].
    - The things the code imports and does not define are parameters: the
      cheerio module, the regular expression engine on patterns that contain
      a metacharacter, and the Wayback client.
    - The progress callback is optional in the source and defaults to [null];
      the model takes it absent.  The pauses between requests
      ([setTimeout]) do not change any returned value and are left out. *)

From Stdlib Require Import Ascii String Bool Arith NArith ZArith List.
From Stdlib Require Import QArith Qround Qminmax Lia Lqa Permutation Sorted.
Import ListNotations.

Local Close Scope Q_scope.
Local Open Scope nat_scope.
Local Open Scope list_scope.

Set Implicit Arguments.

(** ** JavaScript strings *)

Definition jsString := list ascii.

(** A string literal of the source. *)
Definition js (s : string) : jsString := list_ascii_of_string s.

Definition code (c : ascii) : N := N_of_ascii c.

Definition inRange (lo hi n : N) : bool := (N.leb lo n && N.leb n hi)%bool.

(** [String.prototype.toLowerCase] on one code unit below 256: [A]-[Z] and
    the Latin-1 capitals U+00C0-U+00DE except the multiplication sign. *)
Definition toLowerChar (c : ascii) : ascii :=
  let n := code c in
  if (inRange 65 90 n || (inRange 192 222 n && negb (N.eqb n 215)))%bool
  then ascii_of_N (n + 32) else c.

Definition toLowerCase (s : jsString) : jsString := map toLowerChar s.

(** The class [\s], which is also what [trim] removes: tab, line feed,
    vertical tab, form feed, carriage return, space, no-break space. *)
Definition isSpace (c : ascii) : bool :=
  let n := code c in
  (inRange 9 13 n || N.eqb n 32 || N.eqb n 160)%bool.

Fixpoint trimStart (s : jsString) : jsString :=
  match s with
  | [] => []
  | c :: s' => if isSpace c then trimStart s' else s
  end.

Definition trimEnd (s : jsString) : jsString := rev (trimStart (rev s)).

Definition trim (s : jsString) : jsString := trimEnd (trimStart s).

Fixpoint eqbStr (a b : jsString) : bool :=
  match a, b with
  | [], [] => true
  | x :: a', y :: b' => (Ascii.eqb x y && eqbStr a' b')%bool
  | _, _ => false
  end.

(** A string is truthy when it is not empty. *)
Definition truthy (s : jsString) : bool :=
  match s with [] => false | _ :: _ => true end.

Fixpoint startsWith (w s : jsString) : bool :=
  match w, s with
  | [], _ => true
  | _ :: _, [] => false
  | x :: w', y :: s' => (Ascii.eqb x y && startsWith w' s')%bool
  end.

(** [s.includes(w)] *)
Fixpoint includes (s w : jsString) : bool :=
  (startsWith w s ||
   match s with
   | [] => false
   | _ :: s' => includes s' w
   end)%bool.

(** [parts.join(sep)] *)
Fixpoint join (sep : jsString) (parts : list jsString) : jsString :=
  match parts with
  | [] => []
  | [p] => p
  | p :: rest => p ++ sep ++ join sep rest
  end.

(** [s.split(/\s+/)]: the pieces between the maximal whitespace runs.  A
    run at the start or at the end of [s] leaves an empty piece there.
    [cur] is the piece being read, reversed; [inRun] tells that the last
    code unit read was whitespace. *)
Fixpoint splitLoop (s : jsString) (cur : jsString) (inRun : bool)
  : list jsString :=
  match s with
  | [] => [rev cur]
  | c :: s' =>
      if isSpace c
      then if inRun then splitLoop s' [] true
           else rev cur :: splitLoop s' [] true
      else splitLoop s' (c :: cur) false
  end.

Definition splitWhitespace (s : jsString) : list jsString :=
  splitLoop s [] false.

(** ** Regular expressions of the source

    [replaceAll] is [s.replace(re, repl)] for a global [re] that never
    matches the empty string: [matchAt rest] is the length of the match of
    [re] anchored at the start of [rest], if there is one.  [skip] counts
    the code units of the current match still to be consumed. *)
Fixpoint replaceLoop (matchAt : jsString -> option nat) (repl : jsString)
  (s : jsString) (skip : nat) : jsString :=
  match s with
  | [] => []
  | c :: s' =>
      match skip with
      | S k => replaceLoop matchAt repl s' k
      | O =>
          match matchAt s with
          | Some (S k) => repl ++ replaceLoop matchAt repl s' k
          | _ => c :: replaceLoop matchAt repl s' 0
          end
      end
  end.

Definition replaceAll (matchAt : jsString -> option nat) (repl s : jsString)
  : jsString :=
  replaceLoop matchAt repl s 0.

(** Case-insensitive prefix test, as the flag [i] compares code units. *)
Fixpoint startsWithCI (w s : jsString) : bool :=
  match w, s with
  | [] , _ => true
  | _ :: _, [] => false
  | x :: w', y :: s' =>
      (Ascii.eqb (toLowerChar x) (toLowerChar y) && startsWithCI w' s')%bool
  end.

(** Index of the first code unit of [s] that satisfies [p]. *)
Fixpoint indexWhere (p : ascii -> bool) (s : jsString) : option nat :=
  match s with
  | [] => None
  | c :: s' => if p c then Some 0 else option_map S (indexWhere p s')
  end.

(** Index of the first case-insensitive occurrence of [w] in [s]. *)
Fixpoint indexOfCI (w s : jsString) : option nat :=
  if startsWithCI w s then Some 0
  else match s with
       | [] => None
       | _ :: s' => option_map S (indexOfCI w s')
       end.

Definition isGt (c : ascii) : bool := N.eqb (code c) 62.
Definition isLt (c : ascii) : bool := N.eqb (code c) 60.

(** [/<TAG[^>]*>[\s\S]*?<\/TAG>/gi] anchored at the start of [s]: the
    opening [<TAG], everything up to the first [>], then everything up to
    the first closing [</TAG>]. *)
Definition blockMatchAt (tag : jsString) (s : jsString) : option nat :=
  let opening := js "<" ++ tag in
  let closing := js "</" ++ tag ++ js ">" in
  if startsWithCI opening s then
    let rest := skipn (length opening) s in
    match indexWhere isGt rest with
    | None => None
    | Some j =>
        let body := skipn (S j) rest in
        match indexOfCI closing body with
        | None => None
        | Some m => Some (length opening + S j + m + length closing)
        end
    end
  else None.

(** [/<[^>]+>/g] anchored at the start of [s]. *)
Definition tagMatchAt (s : jsString) : option nat :=
  match s with
  | c :: rest =>
      if isLt c then
        match indexWhere isGt rest with
        | Some (S j) => Some (S (S (S j)))
        | _ => None
        end
      else None
  | [] => None
  end.

(** [/\s+/g] anchored at the start of [s]. *)
Fixpoint spaceRun (s : jsString) : nat :=
  match s with
  | c :: s' => if isSpace c then S (spaceRun s') else 0
  | [] => 0
  end.

Definition spaceMatchAt (s : jsString) : option nat :=
  match spaceRun s with
  | O => None
  | n => Some n
  end.

(** The characters that are not literal in a pattern. *)
Definition isMetaChar (c : ascii) : bool :=
  existsb (Ascii.eqb c) (js "\^$.*+?()[]{}|").

Definition isLiteralPattern (w : jsString) : bool :=
  forallb (fun c => negb (isMetaChar c)) w.

(** [text.match(new RegExp(w, 'gi'))] for a non-empty literal [w]: the
    number of matches found from left to right, each search starting where
    the previous match ended. *)
Fixpoint countLoop (w : jsString) (s : jsString) (skip : nat) : nat :=
  match s with
  | [] => 0
  | _ :: s' =>
      match skip with
      | S k => countLoop w s' k
      | O => if startsWithCI w s
             then S (countLoop w s' (length w - 1))
             else countLoop w s' 0
      end
  end.

Definition countLiteral (w text : jsString) : nat := countLoop w text 0.

(** ** Numbers *)

(** [Math.round] *)
Definition Math_round (x : Q) : Z := Qfloor (x + (1 # 2))%Q.

(** [Math.round(x * 100) / 100], computed exactly. *)
Definition round2 (x : Q) : Q :=
  (inject_Z (Math_round (x * 100)) / 100)%Q.

Definition ofNat (n : nat) : Q := inject_Z (Z.of_nat n).

(** [x > y] and [x >= y] on numbers. *)
Definition gtQ (x y : Q) : bool := negb (Qle_bool x y).
Definition geQ (x y : Q) : bool := Qle_bool y x.

(** ** Results and exceptions *)

Inductive Res (A : Type) : Type :=
| Ok (a : A)
| Throw (message : jsString).

Arguments Ok {A} a.
Arguments Throw {A} message.

Definition bind {A B : Type} (m : Res A) (k : A -> Res B) : Res B :=
  match m with
  | Ok a => k a
  | Throw e => Throw e
  end.

Definition tryCatch {A : Type} (body : Res A) (handler : jsString -> Res A)
  : Res A :=
  match body with
  | Ok a => Ok a
  | Throw e => handler e
  end.

Notation "x <- m ;; k" := (bind m (fun x => k))
  (at level 61, m at next level, right associativity).

(** ** Data model *)

Module StopWordMatch.
Record t : Type := mk { word : jsString; count : nat }.
End StopWordMatch.

Module ScoreResult.
Record t : Type := mk {
  found : list StopWordMatch.t;
  count : nat;
  score : Q
}.
End ScoreResult.

Module MetaTags.
Record t : Type := mk {
  title : jsString;
  description : jsString;
  keywords : jsString
}.
End MetaTags.

Module HtmlAnalysis.
Record t : Type := mk {
  textLength : nat;
  metaTags : MetaTags.t;
  stopWords : ScoreResult.t;
  isSpam : bool;
  spamScore : Q
}.
End HtmlAnalysis.

(** ** The cheerio module, as the parser uses it *)

Record CheerioApi (Dom : Type) : Type := {
  load : jsString -> Res Dom;
  remove : jsString -> Dom -> Res Dom;
  text : jsString -> Dom -> Res jsString;
  attr : jsString -> jsString -> Dom -> Res (option jsString)
}.

(** An object the dynamic import can hand back: whether [typeof] says
    ['function'], and its [load] property with the rest of the interface,
    when it has one. *)
Record ModuleObject (Dom : Type) : Type := {
  isFunction : bool;
  api : option (CheerioApi Dom)
}.

Record ModuleNamespace (Dom : Type) : Type := {
  self : ModuleObject Dom;
  default : option (ModuleObject Dom)
}.

(** The selector [meta[name=...]] with the name between double quotes. *)
Definition metaSelector (name : jsString) : jsString :=
  js "meta[name=" ++ ascii_of_N 34 :: name ++ ascii_of_N 34 :: js "]".

(** [x || ''] for a string or [undefined]. *)
Definition orEmpty (x : option jsString) : jsString :=
  match x with
  | Some s => s
  | None => []
  end.

Section HtmlParser.

Variable Dom : Type.

(** [await import('cheerio')] *)
Variable importCheerio : Res (ModuleNamespace Dom).

(** [text.match(new RegExp(w, 'gi'))] on a pattern [w] that contains a
    metacharacter: the number of matches, or the [SyntaxError] of the
    constructor. *)
Variable regExpMeta : jsString -> jsString -> Res nat.

(** The selection of the module object, by both parsers. *)
Definition selectModule (cheerio : ModuleNamespace Dom)
  : Res (ModuleObject Dom) :=
  if isFunction (self cheerio) then Ok (self cheerio)
  else
    match default cheerio with
    | Some d =>
        if isFunction d then Ok d
        else match api (self cheerio) with
             | Some _ => Ok (self cheerio)
             | None => Throw (js "Cannot load cheerio module")
             end
    | None =>
        match api (self cheerio) with
        | Some _ => Ok (self cheerio)
        | None => Throw (js "Cannot load cheerio module")
        end
    end.

(** [cheerioModule.load]: a [TypeError] when the property is missing. *)
Definition loadOf (m : ModuleObject Dom) : Res (CheerioApi Dom) :=
  match api m with
  | Some a => Ok a
  | None => Throw (js "cheerioModule.load is not a function")
  end.

(** The [try] block of [extractTextContent]. *)
Definition structuredText (html : jsString) : Res jsString :=
  cheerio <- importCheerio ;;
  cheerioModule <- selectModule cheerio ;;
  a <- loadOf cheerioModule ;;
  dom <- load a html ;;
  dom' <- remove a (js "script, style, noscript, iframe, embed, object") dom ;;
  body <- text a (js "body") dom' ;;
  txt <- (if truthy body then Ok body else text a (js "html") dom') ;;
  Ok (toLowerCase (trim (replaceAll spaceMatchAt (js " ") txt))).

(** The [catch] block of [extractTextContent]. *)
Definition fallbackText (html : jsString) : jsString :=
  toLowerCase
    (trim
       (replaceAll spaceMatchAt (js " ")
          (replaceAll tagMatchAt (js " ")
             (replaceAll (blockMatchAt (js "style")) []
                (replaceAll (blockMatchAt (js "script")) [] html))))).

Definition extractTextContent (html : jsString) : Res jsString :=
  tryCatch (structuredText html) (fun _ => Ok (fallbackText html)).

Definition emptyMetaTags : MetaTags.t := MetaTags.mk [] [] [].

Definition extractMetaTags (html : jsString) : Res MetaTags.t :=
  tryCatch
    (cheerio <- importCheerio ;;
     cheerioModule <- selectModule cheerio ;;
     a <- loadOf cheerioModule ;;
     dom <- load a html ;;
     t <- text a (js "title") dom ;;
     d <- attr a (metaSelector (js "description")) (js "content") dom ;;
     k <- attr a (metaSelector (js "keywords")) (js "content") dom ;;
     Ok (MetaTags.mk (trim t) (orEmpty d) (orEmpty k)))
    (fun _ => Ok emptyMetaTags).

(** [text.match(new RegExp(wordLower, 'gi'))] and its length, [0] for
    [null]. *)
Definition matchCount (wordLower text : jsString) : Res nat :=
  if isLiteralPattern wordLower then Ok (countLiteral wordLower text)
  else regExpMeta wordLower text.

(** [found.find(item => item.word === wordLower)], as a truth value. *)
Definition hasWord (found : list StopWordMatch.t) (wordLower : jsString)
  : bool :=
  existsb (fun item => eqbStr (StopWordMatch.word item) wordLower) found.

(** The [forEach] of [checkStopWords], with [found] as it stands. *)
Fixpoint forEachStopWord (text textLower : jsString)
  (stopWords : list jsString) (found : list StopWordMatch.t)
  : Res (list StopWordMatch.t) :=
  match stopWords with
  | [] => Ok found
  | word :: rest =>
      let wordLower := trim (toLowerCase word) in
      if (truthy wordLower && includes textLower wordLower)%bool then
        count <- matchCount wordLower text ;;
        forEachStopWord text textLower rest
          (if hasWord found wordLower then found
           else found ++ [StopWordMatch.mk wordLower count])
      else forEachStopWord text textLower rest found
  end.

Definition foundWordsCount (found : list StopWordMatch.t) : nat :=
  fold_left (fun sum item => sum + StopWordMatch.count item) found 0.

Definition rawScore (totalWords foundCount : nat) : Q :=
  if 0 <? totalWords
  then Qmin 100 ((ofNat foundCount / ofNat totalWords) * 100)%Q
  else 0%Q.

Definition checkStopWords (text : jsString) (stopWords : list jsString)
  : Res ScoreResult.t :=
  if (negb (truthy text) || (length stopWords =? 0))%bool then
    Ok (ScoreResult.mk [] 0 0%Q)
  else
    found <- forEachStopWord text (toLowerCase text) stopWords [] ;;
    let totalWords := length (splitWhitespace text) in
    let score := rawScore totalWords (foundWordsCount found) in
    Ok (ScoreResult.mk found (length found) (round2 score)).

Definition analyzeHtmlForSpam (html : jsString) (stopWords : list jsString)
  : Res HtmlAnalysis.t :=
  textContent <- extractTextContent html ;;
  metaTags <- extractMetaTags html ;;
  let allText :=
    join (js " ")
      (filter truthy
         [textContent; MetaTags.title metaTags;
          MetaTags.description metaTags; MetaTags.keywords metaTags]) in
  stopWordsCheck <- checkStopWords allText stopWords ;;
  Ok (HtmlAnalysis.mk
        (length textContent)
        metaTags
        stopWordsCheck
        ((0 <? ScoreResult.count stopWordsCheck) ||
         gtQ (ScoreResult.score stopWordsCheck) 5)%bool
        (ScoreResult.score stopWordsCheck)).

End HtmlParser.

(** ** The Wayback Machine adapter *)

Module Snapshot.
Record t : Type := mk { timestamp : jsString; originalUrl : jsString }.
End Snapshot.

Module HtmlResult.
Record t : Type := mk {
  html : jsString;
  length : nat;
  snapshotUrl : jsString
}.
End HtmlResult.

(** The two calls of [WaybackClient] the adapter makes. *)
Record WaybackClient : Type := {
  getSnapshots : jsString -> nat -> Res (list Snapshot.t);
  getSnapshotHtml : Snapshot.t -> Res HtmlResult.t
}.

Inductive Status : Type :=
| no_snapshots
| clean
| suspicious
| spam
| error.

(** The record returned after the loop over the snapshots. *)
Module DomainAnalysis.
Record t : Type := mk {
  domain : jsString;
  snapshotsChecked : nat;
  spamSnapshots : nat;
  spamPercentage : Q;
  avgSpamScore : Q;
  spamDetected : bool;
  totalStopWordsFound : nat;
  stopWordsFound : list StopWordMatch.t;
  firstSpamDate : option jsString;
  status : Status
}.
End DomainAnalysis.

(** The record returned when the client lists no snapshot. *)
Module NoSnapshots.
Record t : Type := mk {
  domain : jsString;
  snapshotsChecked : nat;
  spamDetected : bool;
  spamScore : Q;
  totalStopWordsFound : nat;
  stopWordsFound : list StopWordMatch.t;
  firstSpamDate : option jsString;
  status : Status
}.
End NoSnapshots.

(** The record the batch pushes for a domain whose analysis threw. *)
Module ErrorRecord.
Record t : Type := mk {
  domain : jsString;
  error : jsString;
  status : Status
}.
End ErrorRecord.

Inductive DomainResult : Type :=
| Analysed (r : DomainAnalysis.t)
| Empty (r : NoSnapshots.t)
| Failed (r : ErrorRecord.t).

(** Reading a property of a result object: [None] is [undefined]. *)
Definition domainOf (r : DomainResult) : jsString :=
  match r with
  | Analysed a => DomainAnalysis.domain a
  | Empty e => NoSnapshots.domain e
  | Failed f => ErrorRecord.domain f
  end.

Definition statusOf (r : DomainResult) : Status :=
  match r with
  | Analysed a => DomainAnalysis.status a
  | Empty e => NoSnapshots.status e
  | Failed f => ErrorRecord.status f
  end.

Definition snapshotsCheckedOf (r : DomainResult) : option nat :=
  match r with
  | Analysed a => Some (DomainAnalysis.snapshotsChecked a)
  | Empty e => Some (NoSnapshots.snapshotsChecked e)
  | Failed _ => None
  end.

Definition spamSnapshotsOf (r : DomainResult) : option nat :=
  match r with
  | Analysed a => Some (DomainAnalysis.spamSnapshots a)
  | _ => None
  end.

Definition spamPercentageOf (r : DomainResult) : option Q :=
  match r with
  | Analysed a => Some (DomainAnalysis.spamPercentage a)
  | _ => None
  end.

Definition avgSpamScoreOf (r : DomainResult) : option Q :=
  match r with
  | Analysed a => Some (DomainAnalysis.avgSpamScore a)
  | _ => None
  end.

Definition spamScoreOf (r : DomainResult) : option Q :=
  match r with
  | Empty e => Some (NoSnapshots.spamScore e)
  | _ => None
  end.

(** *** The [Map] from word to count

    A [Map] keeps its keys in insertion order, and [set] on a key that is
    present keeps the key where it is. *)
Definition WordMap := list (jsString * nat).

Fixpoint mapGet (m : WordMap) (k : jsString) : option nat :=
  match m with
  | [] => None
  | (k', v) :: m' => if eqbStr k' k then Some v else mapGet m' k
  end.

Fixpoint mapSet (m : WordMap) (k : jsString) (v : nat) : WordMap :=
  match m with
  | [] => [(k, v)]
  | (k', v') :: m' =>
      if eqbStr k' k then (k', v) :: m' else (k', v') :: mapSet m' k v
  end.

(** [x || 0] for a number or [undefined]. *)
Definition orZero (x : option nat) : nat :=
  match x with
  | Some n => n
  | None => 0
  end.

(** [found.forEach(item => ...)] of the loop body. *)
Definition trackStopWords (m : WordMap) (found : list StopWordMatch.t)
  : WordMap :=
  fold_left
    (fun acc item =>
       let current := orZero (mapGet acc (StopWordMatch.word item)) in
       mapSet acc (StopWordMatch.word item)
         (current + StopWordMatch.count item))
    found m.

(** [array.sort((a, b) => b.count - a.count)]: a stable sort, larger
    counts first. *)
Fixpoint insertByCount (x : StopWordMatch.t) (l : list StopWordMatch.t)
  : list StopWordMatch.t :=
  match l with
  | [] => [x]
  | y :: l' =>
      if StopWordMatch.count x <? StopWordMatch.count y
      then y :: insertByCount x l'
      else x :: y :: l'
  end.

Definition sortByCountDesc (l : list StopWordMatch.t)
  : list StopWordMatch.t :=
  fold_right insertByCount [] l.

(** [Array.from(map.entries()).map(([word, count]) => ({ word, count }))] *)
Definition entries (m : WordMap) : list StopWordMatch.t :=
  map (fun e => StopWordMatch.mk (fst e) (snd e)) m.

(** The variables the loop over the snapshots updates. *)
Record LoopState : Type := {
  spamSnapshots : nat;
  totalSpamScore : Q;
  allFoundStopWords : WordMap;
  firstSpamDate : option jsString
}.

Definition initialState : LoopState :=
  {| spamSnapshots := 0;
     totalSpamScore := 0%Q;
     allFoundStopWords := [];
     firstSpamDate := None |}.

(** [!firstSpamDate] *)
Definition unset (d : option jsString) : bool :=
  match d with
  | None => true
  | Some s => negb (truthy s)
  end.

Section Adapter.

Variable Dom : Type.
Variable importCheerio : Res (ModuleNamespace Dom).
Variable regExpMeta : jsString -> jsString -> Res nat.
Variable client : WaybackClient.

(** The statements of the loop body that follow the analysis. *)
Definition record (st : LoopState) (snapshot : Snapshot.t)
  (analysis : HtmlAnalysis.t) : LoopState :=
  if HtmlAnalysis.isSpam analysis then
    {| spamSnapshots := S (spamSnapshots st);
       totalSpamScore :=
         (totalSpamScore st + HtmlAnalysis.spamScore analysis)%Q;
       allFoundStopWords :=
         trackStopWords (allFoundStopWords st)
           (ScoreResult.found (HtmlAnalysis.stopWords analysis));
       firstSpamDate :=
         if unset (firstSpamDate st)
         then Some (Snapshot.timestamp snapshot)
         else firstSpamDate st |}
  else st.

(** One turn of the loop: the [try] body, and the [catch] that goes on
    with the next snapshot. *)
Definition checkSnapshot (stopWords : list jsString) (st : LoopState)
  (snapshot : Snapshot.t) : Res LoopState :=
  tryCatch
    (htmlResult <- getSnapshotHtml client snapshot ;;
     analysis <- analyzeHtmlForSpam importCheerio regExpMeta
                   (HtmlResult.html htmlResult) stopWords ;;
     Ok (record st snapshot analysis))
    (fun _ => Ok st).

Fixpoint checkSnapshots (stopWords : list jsString)
  (snapshots : list Snapshot.t) (st : LoopState) : Res LoopState :=
  match snapshots with
  | [] => Ok st
  | snapshot :: rest =>
      st' <- checkSnapshot stopWords st snapshot ;;
      checkSnapshots stopWords rest st'
  end.

(** The code after the loop. *)
Definition summarize (domain : jsString) (snapshotsLength : nat)
  (st : LoopState) : DomainAnalysis.t :=
  let spamPercentage :=
    ((ofNat (spamSnapshots st) / ofNat snapshotsLength) * 100)%Q in
  let avgSpamScore :=
    if 0 <? spamSnapshots st
    then (totalSpamScore st / ofNat (spamSnapshots st))%Q
    else 0%Q in
  let stopWordsFound := sortByCountDesc (entries (allFoundStopWords st)) in
  let status :=
    if geQ spamPercentage 50 then spam
    else if gtQ spamPercentage 0 then suspicious
    else clean in
  DomainAnalysis.mk domain snapshotsLength (spamSnapshots st)
    (round2 spamPercentage) (round2 avgSpamScore)
    (0 <? spamSnapshots st)
    (length (allFoundStopWords st))
    stopWordsFound (firstSpamDate st) status.

Definition analyzeDomainForSpam (domain : jsString)
  (stopWords : list jsString) (maxSnapshots : nat) : Res DomainResult :=
  tryCatch
    (snapshots <- getSnapshots client domain maxSnapshots ;;
     match snapshots with
     | [] =>
         Ok (Empty
               (NoSnapshots.mk domain 0 false 0%Q 0 [] None no_snapshots))
     | _ :: _ =>
         st <- checkSnapshots stopWords snapshots initialState ;;
         Ok (Analysed (summarize domain (length snapshots) st))
     end)
    (fun message => Throw (js "Domain analysis failed: " ++ message)).

(** The loop of [analyzeDomainsForSpam], with [results] as it stands. *)
Fixpoint analyzeEach (domains : list jsString) (stopWords : list jsString)
  (maxSnapshots : nat) (results : list DomainResult)
  : Res (list DomainResult) :=
  match domains with
  | [] => Ok results
  | d :: rest =>
      let domain := trim d in
      if negb (truthy domain) then
        analyzeEach rest stopWords maxSnapshots results
      else
        results' <-
          tryCatch
            (result <- analyzeDomainForSpam domain stopWords maxSnapshots ;;
             Ok (results ++ [result]))
            (fun message =>
               Ok (results ++
                   [Failed (ErrorRecord.mk domain message error)])) ;;
        analyzeEach rest stopWords maxSnapshots results'
  end.

Definition analyzeDomainsForSpam (domains : list jsString)
  (stopWords : list jsString) (maxSnapshots : nat)
  : Res (list DomainResult) :=
  analyzeEach domains stopWords maxSnapshots [].

End Adapter.

(** ** Notions of the specification *)

(** A stop word after lowercasing and trimming. *)
Definition normalize (w : jsString) : jsString := trim (toLowerCase w).

(** A string that [toLowerCase] leaves as it is. *)
Definition lowered (s : jsString) : Prop :=
  Forall (fun c => toLowerChar c = c) s.

(** [w] occurs in [text] as a substring, case being ignored. *)
Definition ciSubstring (w text : jsString) : Prop :=
  exists before mid after,
    text = before ++ mid ++ after /\ toLowerCase mid = toLowerCase w.

(** The words of a list of matches. *)
Definition words (found : list StopWordMatch.t) : list jsString :=
  map StopWordMatch.word found.

(** The number of whitespace-delimited tokens of a text, in the words of
    the specification: the maximal runs of code units that are not
    whitespace.  [inToken] tells that the last code unit read belongs to a
    token. *)
Fixpoint tokenLoop (s : jsString) (inToken : bool) : nat :=
  match s with
  | [] => 0
  | c :: s' =>
      if isSpace c then tokenLoop s' false
      else (if inToken then 0 else 1) + tokenLoop s' true
  end.

Definition tokenCount (s : jsString) : nat := tokenLoop s false.

(** Whether a text starts, and whether it ends, with whitespace: [1] when
    it does. *)
Definition leadingSpace (s : jsString) : nat :=
  match s with
  | c :: _ => if isSpace c then 1 else 0
  | [] => 0
  end.

Fixpoint lastIsSpace (s : jsString) (previous : bool) : bool :=
  match s with
  | [] => previous
  | c :: s' => lastIsSpace s' (isSpace c)
  end.

Definition trailingSpace (s : jsString) : nat :=
  if lastIsSpace s false then 1 else 0.

(** The score in the words of the specification:
    [min(100, foundOccurrences / totalWords * 100)] rounded to two
    decimals, and [0] when there is no word. *)
Definition specScore (text : jsString) (found : list StopWordMatch.t) : Q :=
  round2
    (if tokenCount text =? 0 then 0%Q
     else Qmin 100
            ((ofNat (foundWordsCount found) / ofNat (tokenCount text)) * 100)%Q).

(** The same before it is rounded. *)
Definition specRatio (text : jsString) (found : list StopWordMatch.t) : Q :=
  if tokenCount text =? 0 then 0%Q
  else Qmin 100
         ((ofNat (foundWordsCount found) / ofNat (tokenCount text)) * 100)%Q.

(** The occurrences of [w] that a list of matches records. *)
Definition occurrences (w : jsString) (found : list StopWordMatch.t) : nat :=
  list_sum
    (map StopWordMatch.count
       (filter (fun item => eqbStr (StopWordMatch.word item) w) found)).

Definition sumQ (l : list Q) : Q := fold_right Qplus 0%Q l.

(** The keys of the map, in insertion order. *)
Definition keys (m : WordMap) : list jsString := map fst m.

(** The map after the matches of several snapshots were merged into it. *)
Definition trackAll (founds : list (list StopWordMatch.t)) (m : WordMap)
  : WordMap :=
  fold_left trackStopWords founds m.

(** The words found in some snapshot flagged spam, each once. *)
Definition distinctWords (founds : list (list StopWordMatch.t))
  : list jsString :=
  nodup (list_eq_dec ascii_dec) (concat (map words founds)).


Section Run.

Variable Dom : Type.
Variable importCheerio : Res (ModuleNamespace Dom).
Variable regExpMeta : jsString -> jsString -> Res nat.
Variable client : WaybackClient.
Variable stopWords : list jsString.

(** The analysis of one snapshot, when its page could be fetched and
    analysed. *)
Definition analysisOf (snapshot : Snapshot.t) : option HtmlAnalysis.t :=
  match
    (htmlResult <- getSnapshotHtml client snapshot ;;
     analyzeHtmlForSpam importCheerio regExpMeta
       (HtmlResult.html htmlResult) stopWords)
  with
  | Ok a => Some a
  | Throw _ => None
  end.

(** The analyses of the snapshots that were flagged spam, in order. *)
Fixpoint spamAnalyses (snapshots : list Snapshot.t)
  : list HtmlAnalysis.t :=
  match snapshots with
  | [] => []
  | snapshot :: rest =>
      match analysisOf snapshot with
      | Some a =>
          if HtmlAnalysis.isSpam a then a :: spamAnalyses rest
          else spamAnalyses rest
      | None => spamAnalyses rest
      end
  end.

(** The matches of the snapshots that were flagged spam. *)
Definition spamFound (snapshots : list Snapshot.t)
  : list (list StopWordMatch.t) :=
  map (fun a => ScoreResult.found (HtmlAnalysis.stopWords a))
    (spamAnalyses snapshots).

(** The cumulative count of [w] over the snapshots flagged spam. *)
Definition mergedCount (w : jsString) (snapshots : list Snapshot.t) : nat :=
  list_sum (map (occurrences w) (spamFound snapshots)).

(** One turn of the loop as a function of the state. *)
Definition turn (st : LoopState) (snapshot : Snapshot.t) : LoopState :=
  match analysisOf snapshot with
  | Some a => record st snapshot a
  | None => st
  end.

(** What the batch pushes for one domain. *)
Definition recordFor (maxSnapshots : nat) (domain : jsString)
  : DomainResult :=
  match
    analyzeDomainForSpam importCheerio regExpMeta client domain stopWords
      maxSnapshots
  with
  | Ok r => r
  | Throw message => Failed (ErrorRecord.mk domain message error)
  end.

End Run.

(** ** A concrete environment, for the examples

    The import of cheerio fails, so both parsers take their [catch] branch;
    the engine rejects every pattern with a metacharacter (the examples
    have none); the client serves a fixed list of pages, the snapshot with
    timestamp [t] being fetched as the page paired with [t]. *)

Definition cheerioMissing : Res (ModuleNamespace unit) :=
  Throw (js "Cannot find package 'cheerio'").

Definition rejectMeta : jsString -> jsString -> Res nat :=
  fun _ _ => Throw (js "Invalid regular expression").

Fixpoint pageAt (pages : list (jsString * jsString)) (t : jsString)
  : Res HtmlResult.t :=
  match pages with
  | [] => Throw (js "Failed to fetch snapshot")
  | (t', html) :: rest =>
      if eqbStr t' t then Ok (HtmlResult.mk html (length html) (js "web/" ++ t))
      else pageAt rest t
  end.

Definition archive (timestamps : list jsString)
  (pages : list (jsString * jsString)) : WaybackClient :=
  {| getSnapshots := fun domain limit =>
       if eqbStr domain (js "down.example")
       then Throw (js "CDX API error")
       else Ok (firstn limit
                  (map (fun t => Snapshot.mk t domain) timestamps));
     getSnapshotHtml := fun snapshot => pageAt pages (Snapshot.timestamp snapshot) |}.

Definition spamPage : jsString := js "<p>buy</p>".
Definition halfSpamPage : jsString := js "<p>buy x</p>".
Definition cleanPage : jsString := js "<p>hello</p>".

Definition pages : list (jsString * jsString) :=
  [(js "1", spamPage); (js "2", spamPage); (js "3", halfSpamPage);
   (js "4", cleanPage)].

Definition runDomain (client : WaybackClient) (domain : jsString)
  (maxSnapshots : nat) : Res DomainResult :=
  analyzeDomainForSpam cheerioMissing rejectMeta client domain [js "buy"]
    maxSnapshots.

(** ** The rest of the adapter *)

(** A value handed to [canHandle]: a string, or a value whose [typeof] is
    not ['string']. *)
Inductive JsValue : Type :=
| JsString (s : jsString)
| JsOther.

Definition getName : jsString := js "wayback".

Definition canHandle (target : JsValue) : bool :=
  match target with
  | JsString s => 0 <? length (trim s)
  | JsOther => false
  end.

(** The two records [testWayback] returns. *)
Inductive TestResult : Type :=
| TestEmpty (target : jsString) (snapshotsCount : nat)
| TestFirst (target : jsString) (snapshotsCount : nat)
    (firstSnapshotTimestamp firstSnapshotUrl : jsString)
    (firstSnapshotHtmlLength : nat) (firstSnapshotWaybackUrl : jsString).

Definition testWayback (client : WaybackClient) (target : jsString)
  : Res TestResult :=
  tryCatch
    (snapshots <- getSnapshots client target 5 ;;
     match snapshots with
     | [] => Ok (TestEmpty target 0)
     | firstSnapshot :: _ =>
         htmlResult <- getSnapshotHtml client firstSnapshot ;;
         Ok (TestFirst target (length snapshots)
               (Snapshot.timestamp firstSnapshot)
               (Snapshot.originalUrl firstSnapshot)
               (HtmlResult.length htmlResult)
               (HtmlResult.snapshotUrl htmlResult))
     end)
    (fun message => Throw (js "Wayback test failed: " ++ message)).

(** ** Further notions *)

(** [l] appended to [acc], each string once, at its first occurrence. *)
Definition appendNew (acc l : list jsString) : list jsString :=
  fold_left
    (fun acc x => if existsb (fun y => eqbStr y x) acc then acc else acc ++ [x])
    l acc.

(** The strings of [l] in order of first occurrence. *)
Definition firstOccurrences (l : list jsString) : list jsString :=
  appendNew [] l.

(** The normalised stop words that occur in the text, in the order of the
    list, with their repetitions. *)
Definition matchingWords (text : jsString) (stopWords : list jsString)
  : list jsString :=
  filter (fun x => (truthy x && includes (toLowerCase text) x)%bool)
    (map normalize stopWords).

(** Every whitespace of the string is a plain space. *)
Definition plainSpaces (s : jsString) : Prop :=
  Forall (fun c => isSpace c = true -> c = " "%char) s.

(** The string has no two whitespaces in a row. *)
Fixpoint singleSpaced (s : jsString) : Prop :=
  match s with
  | c :: (d :: _) as s' =>
      (isSpace c = true -> isSpace d = false) /\ singleSpaced s'
  | _ => True
  end.

(** The form both paths of [extractTextContent] give to a text. *)
Definition normalText (s : jsString) : Prop :=
  lowered s /\ leadingSpace s = 0 /\ trailingSpace s = 0 /\
  plainSpaces s /\ singleSpaced s.

(** No suffix of the string starts with a match of [<[^>]+>]. *)
Definition tagFree (s : jsString) : Prop :=
  forall before rest, s = before ++ rest -> tagMatchAt rest = None.

(** The entries of a list of matches that have a given count. *)
Definition withCount (c : nat) (l : list StopWordMatch.t)
  : list StopWordMatch.t :=
  filter (fun e => StopWordMatch.count e =? c) l.

Section Flagged.

Variable Dom : Type.
Variable importCheerio : Res (ModuleNamespace Dom).
Variable regExpMeta : jsString -> jsString -> Res nat.
Variable client : WaybackClient.
Variable stopWords : list jsString.

(** Whether the loop flags a snapshot as spam. *)
Definition flagged (snapshot : Snapshot.t) : bool :=
  match analysisOf importCheerio regExpMeta client stopWords snapshot with
  | Some a => HtmlAnalysis.isSpam a
  | None => false
  end.

(** The snapshots flagged spam, in order. *)
Definition flaggedSnapshots (snapshots : list Snapshot.t)
  : list Snapshot.t :=
  filter flagged snapshots.

End Flagged.

(** A client whose every fetch of a page fails. *)
Definition unreachable (timestamps : list jsString) : WaybackClient :=
  {| getSnapshots := fun domain limit =>
       Ok (firstn limit (map (fun t => Snapshot.mk t domain) timestamps));
     getSnapshotHtml := fun _ => Throw (js "Failed to fetch snapshot") |}.

(** The text [analyzeHtmlForSpam] scores: the extracted text, the title,
    the description and the keywords, those that are not empty, joined by
    single spaces. *)
Definition allTextOf (textContent : jsString) (metaTags : MetaTags.t)
  : jsString :=
  join (js " ")
    (filter truthy
       [textContent; MetaTags.title metaTags;
        MetaTags.description metaTags; MetaTags.keywords metaTags]).

(** No [>] follows, or one follows at once: what keeps a [<] from opening
    a match of [<[^>]+>]. *)
Definition closedAtOnce (rest : jsString) : Prop :=
  indexWhere isGt rest = None \/ indexWhere isGt rest = Some 0.

(** [tagFree], position by position. *)
Fixpoint noTagFrom (s : jsString) : Prop :=
  match s with
  | [] => True
  | c :: rest => (isLt c = true -> closedAtOnce rest) /\ noTagFrom rest
  end.




(** [x] is within [tol] of [y]. *)
Definition within (tol x y : Q) : Prop :=
  (y - tol <= x)%Q /\ (x <= y + tol)%Q.

(** * Properties *)

(** ** Strings *)

Lemma eqbStr_eq (a b : jsString) : eqbStr a b = true <-> a = b.
Proof.
  revert b; induction a as [|x a IH]; intros [|y b]; simpl;
    try (split; [discriminate | congruence]); try tauto.
  rewrite andb_true_iff, Ascii.eqb_eq, IH.
  split; [intros [-> ->]; reflexivity | intros H; inversion H; auto].
Qed.

Lemma eqbStr_refl (a : jsString) : eqbStr a a = true.
Proof. apply eqbStr_eq; reflexivity. Qed.

Lemma eqbStr_neq (a b : jsString) : eqbStr a b = false <-> a <> b.
Proof.
  rewrite <- eqbStr_eq. destruct (eqbStr a b); split; congruence.
Qed.

Lemma truthy_nonempty (s : jsString) : truthy s = true <-> s <> [].
Proof. destruct s; simpl; split; congruence. Qed.

Lemma startsWith_prefix (w s : jsString) :
  startsWith w s = true <-> exists rest, s = w ++ rest.
Proof.
  revert s; induction w as [|x w IH]; intros s; simpl.
  - split; [intros _; exists s; reflexivity | reflexivity].
  - destruct s as [|y s].
    + split; [discriminate | intros [rest H]; discriminate].
    + rewrite andb_true_iff, Ascii.eqb_eq, IH. split.
      * intros [-> [rest ->]]. exists rest; reflexivity.
      * intros [rest H]. inversion H; subst. split; [reflexivity | eauto].
Qed.

Lemma includes_substring (s w : jsString) :
  includes s w = true <-> exists before after, s = before ++ w ++ after.
Proof.
  induction s as [|c s IH].
  - simpl. rewrite orb_false_r, startsWith_prefix. split.
    + intros [rest H]. exists [], rest. exact H.
    + intros [[|b before] [after H]]; [eauto | discriminate].
  - simpl. rewrite orb_true_iff, startsWith_prefix, IH. split.
    + intros [[rest H] | [before [after H]]].
      * exists [], rest. exact H.
      * exists (c :: before), after. rewrite H. reflexivity.
    + intros [[|b before] [after H]].
      * left. exists after. exact H.
      * right. inversion H; subst. eauto.
Qed.

Lemma toLowerChar_idempotent (c : ascii) :
  toLowerChar (toLowerChar c) = toLowerChar c.
Proof.
  destruct c as [[] [] [] [] [] [] [] []]; reflexivity.
Qed.

Lemma lowered_toLowerCase (s : jsString) : lowered (toLowerCase s).
Proof.
  unfold lowered, toLowerCase. apply Forall_forall. intros c H.
  apply in_map_iff in H. destruct H as [d [<- _]].
  apply toLowerChar_idempotent.
Qed.

Lemma lowered_fixed (s : jsString) : lowered s -> toLowerCase s = s.
Proof.
  induction 1 as [|c s Hc _ IH]; simpl; [reflexivity | congruence].
Qed.

Lemma trimStart_lowered (s : jsString) : lowered s -> lowered (trimStart s).
Proof.
  induction 1 as [|c s Hc Hs IH]; simpl; [constructor |].
  destruct (isSpace c); [exact IH | constructor; assumption].
Qed.

Lemma trim_lowered (s : jsString) : lowered s -> lowered (trim s).
Proof.
  intros H. unfold trim, trimEnd, lowered.
  apply Forall_rev. apply trimStart_lowered. apply Forall_rev.
  apply trimStart_lowered. exact H.
Qed.

Lemma normalize_lowered (w : jsString) :
  toLowerCase (normalize w) = normalize w.
Proof.
  apply lowered_fixed. apply trim_lowered. apply lowered_toLowerCase.
Qed.

(** The test of the source, [textLower.includes(wordLower)], is the
    case-insensitive substring test. *)
Lemma includes_ciSubstring (text w : jsString) :
  includes (toLowerCase text) (normalize w) = true
  <-> ciSubstring (normalize w) text.
Proof.
  rewrite includes_substring. unfold ciSubstring, toLowerCase. split.
  - intros [before [after H]].
    apply map_eq_app in H. destruct H as [b [r [-> [Hb Hr]]]].
    apply map_eq_app in Hr. destruct Hr as [m [a [-> [Hm Ha]]]].
    exists b, m, a. split; [reflexivity |].
    rewrite Hm. symmetry. apply normalize_lowered.
  - intros [b [m [a [-> Hm]]]].
    exists (map toLowerChar b), (map toLowerChar a).
    rewrite !map_app, Hm. f_equal. f_equal. apply normalize_lowered.
Qed.

(** ** Rounding *)

Lemma Qfloor_lower (z : Z) (x : Q) :
  (z <= Qfloor x)%Z <-> (inject_Z z <= x)%Q.
Proof.
  split; intros H.
  - apply Qle_trans with (inject_Z (Qfloor x)); [| apply Qfloor_le].
    rewrite <- Zle_Qle. exact H.
  - rewrite <- (Qfloor_Z z). apply Qfloor_resp_le. exact H.
Qed.

Lemma Qfloor_upper (z : Z) (x : Q) :
  (Qfloor x < z)%Z <-> (x < inject_Z z)%Q.
Proof.
  split; intros H.
  - apply Qnot_le_lt. intros C. apply Qfloor_lower in C. lia.
  - apply Z.nle_gt. intros C. apply Qfloor_lower in C.
    apply (Qlt_irrefl x). apply Qlt_le_trans with (inject_Z z); assumption.
Qed.

Lemma round2_value (x : Q) :
  (round2 x == Math_round (x * 100) # 100)%Q.
Proof.
  unfold round2, Qdiv, Qmult, Qinv, Qeq, inject_Z. simpl. lia.
Qed.

Lemma round2_proper (x y : Q) : (x == y)%Q -> (round2 x == round2 y)%Q.
Proof.
  intros H. unfold round2, Math_round. rewrite H. reflexivity.
Qed.

Lemma round2_bounds (x : Q) :
  (0 <= x)%Q -> (x <= 100)%Q -> (0 <= round2 x)%Q /\ (round2 x <= 100)%Q.
Proof.
  intros H0 H100.
  assert (L : (0 <= Math_round (x * 100))%Z).
  { unfold Math_round. apply Qfloor_lower.
    apply Qle_trans with (x * 100)%Q.
    - apply Qmult_le_0_compat; [exact H0 | discriminate].
    - rewrite <- (Qplus_0_r (x * 100)) at 1.
      apply Qplus_le_compat; [apply Qle_refl | discriminate]. }
  assert (U : (Math_round (x * 100) < 10001)%Z).
  { unfold Math_round. apply Qfloor_upper.
    apply Qle_lt_trans with (100 * 100 + (1 # 2))%Q; [| reflexivity].
    apply Qplus_le_compat; [| apply Qle_refl].
    apply Qmult_le_compat_r; [exact H100 | discriminate]. }
  rewrite round2_value. unfold Qle; simpl. lia.
Qed.

(** Rounding to two decimals moves a number by less than a hundredth. *)
Lemma round2_within (x : Q) : within (1 # 100) (round2 x) x.
Proof.
  unfold within, round2.
  pose proof (Qfloor_le (x * 100 + (1 # 2))) as L.
  pose proof (Qlt_floor (x * 100 + (1 # 2))) as U.
  fold (Math_round (x * 100)) in L, U.
  rewrite inject_Z_plus in U.
  set (m := inject_Z (Math_round (x * 100))) in *. clearbody m.
  change (inject_Z 1) with 1%Q in U.
  unfold Qdiv. change (/ 100)%Q with (1 # 100)%Q.
  split; lra.
Qed.


Lemma ofNat_nonneg (n : nat) : (0 <= ofNat n)%Q.
Proof. unfold ofNat, Qle; simpl. lia. Qed.

Lemma ofNat_pos (n : nat) : 0 < n -> (0 < ofNat n)%Q.
Proof. intros H. unfold ofNat, Qlt; simpl. lia. Qed.

Lemma rawScore_bounds (totalWords foundCount : nat) :
  (0 <= rawScore totalWords foundCount)%Q /\
  (rawScore totalWords foundCount <= 100)%Q.
Proof.
  unfold rawScore. destruct (Nat.ltb_spec 0 totalWords) as [H | H].
  - split.
    + apply Q.min_glb; [discriminate |].
      apply Qmult_le_0_compat; [| discriminate].
      apply Qle_shift_div_l; [apply ofNat_pos; exact H |].
      rewrite Qmult_0_l. apply ofNat_nonneg.
    + apply Q.le_min_l.
  - split; discriminate.
Qed.

(** A score is [0] when nothing was found. *)
Lemma rawScore_nothing (totalWords : nat) :
  (rawScore totalWords 0 == 0)%Q.
Proof.
  unfold rawScore. destruct (0 <? totalWords); [| reflexivity].
  assert (E : (ofNat 0 / ofNat totalWords * 100 == 0)%Q).
  { unfold ofNat, Qdiv. simpl. rewrite Qmult_0_l. reflexivity. }
  rewrite E. reflexivity.
Qed.

(** ** The keyword scorer *)

Lemma hasWord_In (found : list StopWordMatch.t) (w : jsString) :
  hasWord found w = true <-> In w (words found).
Proof.
  unfold hasWord, words. rewrite existsb_exists, in_map_iff. split.
  - intros [item [Hin Heq]]. apply eqbStr_eq in Heq. eauto.
  - intros [item [Heq Hin]]. exists item. rewrite Heq, eqbStr_refl. auto.
Qed.

Lemma words_app (l1 l2 : list StopWordMatch.t) :
  words (l1 ++ l2) = words l1 ++ words l2.
Proof. apply map_app. Qed.

Lemma foundWordsCount_from (found : list StopWordMatch.t) (n : nat) :
  fold_left (fun sum item => sum + StopWordMatch.count item) found n
  = n + list_sum (map StopWordMatch.count found).
Proof.
  revert n; induction found as [|item found IH]; intros n; simpl.
  - lia.
  - rewrite IH. lia.
Qed.

(** [foundWordsCount] is the sum of the counts of the matches. *)
Lemma foundWordsCount_sum (found : list StopWordMatch.t) :
  foundWordsCount found = list_sum (map StopWordMatch.count found).
Proof. unfold foundWordsCount. rewrite foundWordsCount_from. reflexivity. Qed.

Section Scorer.

Variable regExpMeta : jsString -> jsString -> Res nat.

Lemma matchCount_literal (w text : jsString) :
  isLiteralPattern w = true ->
  matchCount regExpMeta w text = Ok (countLiteral w text).
Proof. intros H. unfold matchCount. rewrite H. reflexivity. Qed.

Lemma matchCount_throws (w text e : jsString) :
  matchCount regExpMeta w text = Throw e -> isLiteralPattern w = false.
Proof.
  unfold matchCount. destruct (isLiteralPattern w); [discriminate | auto].
Qed.

(** The words the loop adds are the normalised stop words that occur in
    the text. *)
Lemma forEachStopWord_words (text : jsString) (stopWords : list jsString) :
  forall found found',
    forEachStopWord regExpMeta text (toLowerCase text) stopWords found
    = Ok found' ->
    forall x,
      In x (words found') <->
      In x (words found) \/
      exists w, In w stopWords /\ x = normalize w /\ truthy x = true /\
                includes (toLowerCase text) x = true.
Proof.
  induction stopWords as [|word rest IH]; intros found found' H x.
  - simpl in H. inversion H; subst. split; [auto |].
    intros [Hx | [w [[] _]]]. exact Hx.
  - simpl in H. fold (normalize word) in H.
    destruct (truthy (normalize word)
              && includes (toLowerCase text) (normalize word))%bool eqn:T.
    + destruct (matchCount regExpMeta (normalize word) text)
        as [count | e]; simpl in H; [| discriminate].
      apply andb_true_iff in T. destruct T as [T1 T2].
      rewrite (IH _ _ H x). split.
      * intros [Hx | [w [Hw Hrest]]].
        -- destruct (hasWord found (normalize word)) eqn:D.
           ++ left. exact Hx.
           ++ rewrite words_app in Hx. apply in_app_or in Hx.
              destruct Hx as [Hx | [Hx | []]]; [left; exact Hx |].
              right. exists word. simpl in Hx. subst x.
              simpl. auto.
        -- right. exists w. simpl. tauto.
      * intros [Hx | [w [[Hw | Hw] Hrest]]].
        -- left. destruct (hasWord found (normalize word));
             [exact Hx | rewrite words_app; apply in_or_app; left; exact Hx].
        -- subst w. destruct Hrest as [Hx _]. left.
           destruct (hasWord found (normalize word)) eqn:D.
           ++ apply hasWord_In in D. rewrite Hx. exact D.
           ++ rewrite words_app. apply in_or_app. right.
              simpl. left. symmetry. exact Hx.
        -- right. exists w. tauto.
    + rewrite (IH _ _ H x). split.
      * intros [Hx | [w [Hw Hrest]]]; [left; exact Hx |].
        right. exists w. simpl. tauto.
      * intros [Hx | [w [[Hw | Hw] Hrest]]]; [left; exact Hx | |].
        -- subst w. destruct Hrest as [-> [T1 T2]].
           rewrite T1, T2 in T. discriminate.
        -- right. exists w. tauto.
Qed.

(** No word is recorded twice. *)
Lemma forEachStopWord_NoDup (text textLower : jsString)
  (stopWords : list jsString) :
  forall found found',
    forEachStopWord regExpMeta text textLower stopWords found = Ok found' ->
    NoDup (words found) -> NoDup (words found').
Proof.
  induction stopWords as [|word rest IH]; intros found found' H N.
  - simpl in H. inversion H; subst. exact N.
  - simpl in H.
    destruct (truthy (trim (toLowerCase word))
              && includes textLower (trim (toLowerCase word)))%bool.
    + destruct (matchCount regExpMeta (trim (toLowerCase word)) text)
        as [count | e]; simpl in H; [| discriminate].
      apply (IH _ _ H).
      destruct (hasWord found (trim (toLowerCase word))) eqn:D;
        [exact N |].
      rewrite words_app. simpl.
      apply NoDup_app; [exact N | repeat constructor; intros [] |].
      intros a Ha [<- | []]. apply hasWord_In in Ha. congruence.
    + apply (IH _ _ H N).
Qed.

(** Each stop word adds at most one match. *)
Lemma forEachStopWord_length (text textLower : jsString)
  (stopWords : list jsString) :
  forall found found',
    forEachStopWord regExpMeta text textLower stopWords found = Ok found' ->
    length found' <= length found + length stopWords.
Proof.
  induction stopWords as [|word rest IH]; intros found found' H.
  - simpl in H. inversion H; subst. simpl. lia.
  - simpl in H.
    destruct (truthy (trim (toLowerCase word))
              && includes textLower (trim (toLowerCase word)))%bool.
    + destruct (matchCount regExpMeta (trim (toLowerCase word)) text)
        as [count | e]; simpl in H; [| discriminate].
      apply IH in H.
      destruct (hasWord found (trim (toLowerCase word)));
        [| rewrite length_app in H]; simpl in *; lia.
    + apply IH in H. simpl. lia.
Qed.

(** The loop throws only where the constructor of [RegExp] does, on a
    stop word with a metacharacter. *)
Lemma forEachStopWord_throws (text textLower : jsString)
  (stopWords : list jsString) :
  forall found e,
    forEachStopWord regExpMeta text textLower stopWords found = Throw e ->
    exists w, In w stopWords /\ isLiteralPattern (normalize w) = false.
Proof.
  induction stopWords as [|word rest IH]; intros found e H.
  - simpl in H. discriminate.
  - simpl in H.
    destruct (truthy (trim (toLowerCase word))
              && includes textLower (trim (toLowerCase word)))%bool.
    + destruct (matchCount regExpMeta (trim (toLowerCase word)) text)
        as [count | e'] eqn:M; simpl in H.
      * apply IH in H. destruct H as [w [Hw Hl]]. exists w. simpl. auto.
      * exists word. split; [simpl; auto |].
        apply (matchCount_throws _ _ M).
    + apply IH in H. destruct H as [w [Hw Hl]]. exists w. simpl. auto.
Qed.

Lemma checkStopWords_throws (text : jsString) (stopWords : list jsString)
  (e : jsString) :
  checkStopWords regExpMeta text stopWords = Throw e ->
  exists w, In w stopWords /\ isLiteralPattern (normalize w) = false.
Proof.
  unfold checkStopWords.
  destruct (negb (truthy text) || (length stopWords =? 0))%bool;
    [discriminate |].
  destruct (forEachStopWord regExpMeta text (toLowerCase text) stopWords [])
    as [found | e'] eqn:F; simpl; [discriminate |].
  intros _. apply (forEachStopWord_throws _ _ _ _ F).
Qed.

(** The shape of a result: either the degenerate one, or the matches of
    the loop with their number and the rounded score. *)
Lemma checkStopWords_result (text : jsString) (stopWords : list jsString)
  (r : ScoreResult.t) :
  checkStopWords regExpMeta text stopWords = Ok r ->
  (r = ScoreResult.mk [] 0 0%Q /\ (text = [] \/ stopWords = [])) \/
  (text <> [] /\ stopWords <> [] /\
   forEachStopWord regExpMeta text (toLowerCase text) stopWords []
   = Ok (ScoreResult.found r) /\
   ScoreResult.count r = length (ScoreResult.found r) /\
   ScoreResult.score r
   = round2 (rawScore (length (splitWhitespace text))
               (foundWordsCount (ScoreResult.found r)))).
Proof.
  unfold checkStopWords.
  destruct (negb (truthy text) || (length stopWords =? 0))%bool eqn:G.
  - intros H. inversion H; subst. left. split; [reflexivity |].
    apply orb_true_iff in G. destruct G as [G | G].
    + left. destruct text; [reflexivity | discriminate].
    + right. destruct stopWords; [reflexivity | discriminate].
  - apply orb_false_iff in G. destruct G as [G1 G2].
    destruct (forEachStopWord regExpMeta text (toLowerCase text) stopWords [])
      as [found | e'] eqn:F; simpl; [| discriminate].
    intros H. inversion H; subst; simpl. right.
    repeat split; auto.
    + destruct text; [discriminate | congruence].
    + destruct stopWords; [discriminate | congruence].
Qed.

End Scorer.

(** The words found, whenever the scorer returns.  For every text and
    every stop word [w] of the input list whose normalised form
    (lowercased, then trimmed) is not empty: when the scorer returns a
    result, the normalised word is among the words found if and only if it
    occurs in the text as a substring, case being ignored and no word
    boundary being required; and no word is recorded twice.  The scorer
    fails to return only when [new RegExp] rejects a stop word, which
    takes a stop word with a metacharacter. *)
Theorem checkStopWords_found_iff
  (regExpMeta : jsString -> jsString -> Res nat)
  (text : jsString) (stopWords : list jsString) (w : jsString) :
  In w stopWords ->
  normalize w <> [] ->
  match checkStopWords regExpMeta text stopWords with
  | Ok r =>
      (In (normalize w) (words (ScoreResult.found r))
       <-> ciSubstring (normalize w) text) /\
      NoDup (words (ScoreResult.found r))
  | Throw _ =>
      exists w', In w' stopWords /\ isLiteralPattern (normalize w') = false
  end.
Proof.
  intros Hw Hn.
  destruct (checkStopWords regExpMeta text stopWords) as [r | e] eqn:E.
  - apply checkStopWords_result in E.
    destruct E as [[-> [Ht | Hs]] | [Ht [Hs [F _]]]].
    + simpl. split; [| constructor]. split; [intros [] |].
      intros [before [mid [after [H1 H2]]]]. subst text.
      symmetry in H1. apply app_eq_nil in H1. destruct H1 as [_ H1].
      apply app_eq_nil in H1. destruct H1 as [H1 _]. subst mid.
      rewrite normalize_lowered in H2. simpl in H2. congruence.
    + subst stopWords. destruct Hw.
    + split.
      * rewrite (forEachStopWord_words _ _ _ _ F (normalize w)).
        rewrite <- includes_ciSubstring. simpl. split.
        -- intros [[] | [w' [_ [_ [_ H]]]]]. exact H.
        -- intros H. right. exists w. repeat split; auto.
           apply truthy_nonempty. exact Hn.
      * eapply forEachStopWord_NoDup; [exact F | constructor].
  - eapply checkStopWords_throws; exact E.
Qed.

Lemma forEachStopWord_rejects
  (regExpMeta : jsString -> jsString -> Res nat)
  (text textLower : jsString) (w e : jsString) (stopWords : list jsString) :
  truthy (normalize w) = true ->
  includes textLower (normalize w) = true ->
  matchCount regExpMeta (normalize w) text = Throw e ->
  In w stopWords ->
  forall found,
  exists e',
    forEachStopWord regExpMeta text textLower stopWords found = Throw e'.
Proof.
  intros T I M.
  induction stopWords as [|word rest IH]; intros Hw found; [destruct Hw |].
  cbn [forEachStopWord]. fold (normalize word).
  destruct Hw as [-> | Hw].
  - rewrite T, I, M. simpl. eauto.
  - destruct (truthy (normalize word)
              && includes textLower (normalize word))%bool;
      [| apply IH; exact Hw].
    destruct (matchCount regExpMeta (normalize word) text) as [count | e'];
      simpl; [apply IH; exact Hw | eauto].
Qed.

(** C5.  A stop word that occurs in the text is not always reported: the
    pattern is built from the word as it stands, [new RegExp(wordLower,
    'gi')], while the test before it, [textLower.includes(wordLower)],
    takes the word letter by letter.  When the list holds a word that
    occurs in the text and that [new RegExp] rejects, the scorer throws,
    and reports neither that word nor any other word of the list. *)
Theorem checkStopWords_rejected_pattern
  (regExpMeta : jsString -> jsString -> Res nat)
  (text : jsString) (stopWords : list jsString) (w e : jsString) :
  In w stopWords ->
  normalize w <> [] ->
  ciSubstring (normalize w) text ->
  isLiteralPattern (normalize w) = false ->
  regExpMeta (normalize w) text = Throw e ->
  exists e', checkStopWords regExpMeta text stopWords = Throw e'.
Proof.
  intros Hw Hn Hc Hl Hr.
  assert (M : matchCount regExpMeta (normalize w) text = Throw e).
  { unfold matchCount. rewrite Hl. exact Hr. }
  apply truthy_nonempty in Hn. apply includes_ciSubstring in Hc.
  destruct (forEachStopWord_rejects regExpMeta text (toLowerCase text) w
              stopWords Hn Hc M Hw []) as [e' F].
  exists e'. unfold checkStopWords.
  assert (G : (negb (truthy text) || (length stopWords =? 0))%bool = false).
  { apply orb_false_iff. split.
    - destruct text as [|c t]; [| reflexivity].
      destruct (normalize w); [discriminate | simpl in Hc; discriminate].
    - destruct stopWords; [destruct Hw | reflexivity]. }
  rewrite G, F. reflexivity.
Qed.

(** C7. For every text and stop-word list: whenever the scorer returns a
    result, its [count] is the number of matches found and is at most the
    length of the list, the matches have distinct words, each the
    normalised form of a stop word of the list, and the score lies between
    0 and 100.  The scorer fails to return only when [new RegExp] rejects
    a stop word, which takes a stop word with a metacharacter. *)
Theorem checkStopWords_bounds
  (regExpMeta : jsString -> jsString -> Res nat)
  (text : jsString) (stopWords : list jsString) :
  match checkStopWords regExpMeta text stopWords with
  | Ok r =>
      ScoreResult.count r <= length stopWords /\
      ScoreResult.count r = length (ScoreResult.found r) /\
      NoDup (words (ScoreResult.found r)) /\
      (forall x, In x (words (ScoreResult.found r)) ->
                 exists w, In w stopWords /\ x = normalize w) /\
      (0 <= ScoreResult.score r)%Q /\ (ScoreResult.score r <= 100)%Q
  | Throw _ =>
      exists w, In w stopWords /\ isLiteralPattern (normalize w) = false
  end.
Proof.
  destruct (checkStopWords regExpMeta text stopWords) as [r | e] eqn:E.
  - apply checkStopWords_result in E.
    destruct E as [[-> _] | [_ [_ [F [C S]]]]].
    + simpl. repeat split; try lia; try discriminate; try constructor.
    + split; [| split; [exact C | split; [| split]]].
      * rewrite C. eapply Nat.le_trans;
          [eapply forEachStopWord_length; exact F | simpl; lia].
      * eapply forEachStopWord_NoDup; [exact F | constructor].
      * intros x Hx.
        apply (forEachStopWord_words _ _ _ _ F x) in Hx.
        destruct Hx as [[] | [w [Hw [Hx _]]]]. eauto.
      * rewrite S. apply round2_bounds; apply rawScore_bounds.
  - eapply checkStopWords_throws; exact E.
Qed.

(** What the scorer returns on a stop-word list without metacharacters. *)
Lemma checkStopWords_returns
  (regExpMeta : jsString -> jsString -> Res nat)
  (text : jsString) (stopWords : list jsString) :
  Forall (fun w => isLiteralPattern (normalize w) = true) stopWords ->
  exists r, checkStopWords regExpMeta text stopWords = Ok r.
Proof.
  intros L.
  destruct (checkStopWords regExpMeta text stopWords) as [r | e] eqn:E;
    [eauto |].
  apply checkStopWords_throws in E. destruct E as [w [Hw Hl]].
  rewrite Forall_forall in L. rewrite (L w Hw) in Hl. discriminate.
Qed.

(** A result without a match has score 0. *)
Lemma checkStopWords_no_match
  (regExpMeta : jsString -> jsString -> Res nat)
  (text : jsString) (stopWords : list jsString) (r : ScoreResult.t) :
  checkStopWords regExpMeta text stopWords = Ok r ->
  ScoreResult.count r = 0 ->
  (ScoreResult.score r == 0)%Q.
Proof.
  intros E Z. apply checkStopWords_result in E.
  destruct E as [[-> _] | [_ [_ [_ [C S]]]]]; [reflexivity |].
  rewrite S. rewrite C in Z. apply length_zero_iff_nil in Z. rewrite Z.
  unfold foundWordsCount. simpl.
  rewrite (round2_proper (rawScore_nothing _)). reflexivity.
Qed.

(** ** The parsers *)

Section Parsers.

Variable Dom : Type.
Variable importCheerio : Res (ModuleNamespace Dom).

Lemma extractTextContent_value (html : jsString) :
  extractTextContent importCheerio html
  = Ok match structuredText importCheerio html with
       | Ok txt => txt
       | Throw _ => fallbackText html
       end.
Proof.
  unfold extractTextContent, tryCatch.
  destruct (structuredText importCheerio html); reflexivity.
Qed.

Lemma extractMetaTags_returns (html : jsString) :
  exists m, extractMetaTags importCheerio html = Ok m.
Proof.
  unfold extractMetaTags, tryCatch.
  match goal with |- context [match ?b with _ => _ end] => destruct b end;
    eauto.
Qed.

End Parsers.

(** C9. For every HTML string and stop-word list: whenever
    [analyzeHtmlForSpam] returns an analysis, its [isSpam] flag is
    [stopWords.count > 0], and [stopWords.score > 5] implies
    [stopWords.count > 0], so the second disjunct of the source adds
    nothing.  The function fails to return only when [new RegExp]
    rejects a stop word. *)
Theorem isSpam_iff_count
  (Dom : Type) (importCheerio : Res (ModuleNamespace Dom))
  (regExpMeta : jsString -> jsString -> Res nat)
  (html : jsString) (stopWords : list jsString) :
  match analyzeHtmlForSpam importCheerio regExpMeta html stopWords with
  | Ok a =>
      HtmlAnalysis.isSpam a
      = (0 <? ScoreResult.count (HtmlAnalysis.stopWords a)) /\
      (gtQ (ScoreResult.score (HtmlAnalysis.stopWords a)) 5 = true ->
       0 < ScoreResult.count (HtmlAnalysis.stopWords a))
  | Throw _ =>
      exists w, In w stopWords /\ isLiteralPattern (normalize w) = false
  end.
Proof.
  unfold analyzeHtmlForSpam.
  rewrite extractTextContent_value. simpl.
  destruct (extractMetaTags_returns importCheerio html) as [m ->]. simpl.
  match goal with
  | |- context [checkStopWords regExpMeta ?t stopWords] =>
      destruct (checkStopWords regExpMeta t stopWords) as [r | e] eqn:E
  end; simpl.
  - assert (G : gtQ (ScoreResult.score r) 5 = true -> 0 < ScoreResult.count r).
    { intros G. destruct (ScoreResult.count r) eqn:C; [| lia].
      apply (checkStopWords_no_match _ _ _ E) in C.
      unfold gtQ in G. apply negb_true_iff in G.
      assert (T : Qle_bool (ScoreResult.score r) 5 = true).
      { apply Qle_bool_iff. rewrite C. discriminate. }
      congruence. }
    split; [| exact G].
    destruct (0 <? ScoreResult.count r) eqn:P; [reflexivity |].
    simpl. destruct (gtQ (ScoreResult.score r) 5) eqn:G'; [| reflexivity].
    apply Nat.ltb_ge in P. specialize (G eq_refl). lia.
  - eapply checkStopWords_throws; exact E.
Qed.

(** ** The number of words of a text *)

Lemma splitLoop_length (s : jsString) :
  forall cur inRun,
    length (splitLoop s cur inRun)
    = (if inRun then 0 else 1) + tokenLoop s (negb inRun)
      + (if lastIsSpace s inRun then 1 else 0).
Proof.
  induction s as [|c s IH]; intros cur inRun; simpl.
  - destruct inRun; reflexivity.
  - destruct (isSpace c) eqn:W.
    + destruct inRun; simpl; rewrite IH; simpl; lia.
    + rewrite IH. destruct inRun; simpl; lia.
Qed.

(** [text.split(/\s+/).length] counts the tokens of the text, and one
    more piece for whitespace at its start, and one more for whitespace at
    its end. *)
Lemma splitWhitespace_length (s : jsString) :
  s <> [] ->
  length (splitWhitespace s) = tokenCount s + leadingSpace s + trailingSpace s.
Proof.
  intros N. unfold splitWhitespace, tokenCount, trailingSpace.
  rewrite splitLoop_length. destruct s as [|c s]; [congruence |].
  simpl. destruct (isSpace c); simpl; lia.
Qed.

Lemma splitWhitespace_nonempty (s : jsString) :
  0 < length (splitWhitespace s).
Proof.
  unfold splitWhitespace. rewrite splitLoop_length. simpl. lia.
Qed.

Lemma tokenCount_positive (s : jsString) :
  s <> [] -> leadingSpace s = 0 -> 0 < tokenCount s.
Proof.
  intros N L. destruct s as [|c s]; [congruence |].
  unfold tokenCount. simpl in *. destruct (isSpace c); [discriminate | lia].
Qed.

(** On a text that neither starts nor ends with whitespace, the score of
    the source is the score of the specification. *)
Lemma checkStopWords_score_trimmed
  (regExpMeta : jsString -> jsString -> Res nat)
  (text : jsString) (stopWords : list jsString) (r : ScoreResult.t) :
  checkStopWords regExpMeta text stopWords = Ok r ->
  text <> [] -> stopWords <> [] ->
  leadingSpace text = 0 -> trailingSpace text = 0 ->
  ScoreResult.score r = specScore text (ScoreResult.found r).
Proof.
  intros E Nt Ns L T. apply checkStopWords_result in E.
  destruct E as [[_ [C | C]] | [_ [_ [_ [_ S]]]]]; try congruence.
  rewrite S, (splitWhitespace_length Nt), L, T, !Nat.add_0_r.
  unfold specScore, rawScore.
  pose proof (tokenCount_positive Nt L) as P.
  destruct (Nat.ltb_spec 0 (tokenCount text)); [| lia].
  destruct (Nat.eqb_spec (tokenCount text) 0); [lia | reflexivity].
Qed.

(** C1. The score of the source at the text [" buy "] with the stop word
    ["buy"]: one match, three pieces counted as words where the text has
    one token, and a score of 33.33 where the formula of the specification
    gives 100. *)
Theorem checkStopWords_counts_edge_pieces
  (regExpMeta : jsString -> jsString -> Res nat) :
  exists r,
    checkStopWords regExpMeta (js " buy ") [js "buy"] = Ok r /\
    ScoreResult.found r = [StopWordMatch.mk (js "buy") 1] /\
    length (splitWhitespace (js " buy ")) = 3 /\
    tokenCount (js " buy ") = 1 /\
    (ScoreResult.score r == 3333 # 100)%Q /\
    (specScore (js " buy ") (ScoreResult.found r) == 100)%Q.
Proof.
  eexists. split; [vm_compute; reflexivity |].
  repeat split; vm_compute; reflexivity.
Qed.

(** ** The map of cumulative counts *)

Lemma mapGet_mapSet (m : WordMap) (k k' : jsString) (v : nat) :
  mapGet (mapSet m k v) k' = if eqbStr k k' then Some v else mapGet m k'.
Proof.
  induction m as [|[k0 v0] m IH]; simpl.
  - reflexivity.
  - destruct (eqbStr k0 k) eqn:E; simpl.
    + apply eqbStr_eq in E. subst k0. destruct (eqbStr k k'); reflexivity.
    + rewrite IH. destruct (eqbStr k0 k') eqn:E'; [| reflexivity].
      apply eqbStr_eq in E'. subst k'.
      assert (F : eqbStr k k0 = false).
      { apply eqbStr_neq. apply eqbStr_neq in E. congruence. }
      rewrite F. reflexivity.
Qed.

Lemma keys_mapSet (m : WordMap) (k : jsString) (v : nat) :
  keys (mapSet m k v)
  = match mapGet m k with
    | Some _ => keys m
    | None => keys m ++ [k]
    end.
Proof.
  induction m as [|[k0 v0] m IH]; simpl.
  - reflexivity.
  - destruct (eqbStr k0 k); simpl; [reflexivity |].
    rewrite IH. destruct (mapGet m k); reflexivity.
Qed.

Lemma mapGet_keys (m : WordMap) (k : jsString) :
  In k (keys m) <-> exists v, mapGet m k = Some v.
Proof.
  induction m as [|[k0 v0] m IH]; simpl.
  - split; [intros [] | intros [v H]; discriminate].
  - destruct (eqbStr k0 k) eqn:E.
    + apply eqbStr_eq in E. split; [eauto | auto].
    + apply eqbStr_neq in E. rewrite IH. split; [intros [C | H] | ]; tauto.
Qed.


Lemma mapSet_NoDup (m : WordMap) (k : jsString) (v : nat) :
  NoDup (keys m) -> NoDup (keys (mapSet m k v)).
Proof.
  intros N. rewrite keys_mapSet. destruct (mapGet m k) eqn:G; [exact N |].
  apply NoDup_app; [exact N | repeat constructor; intros [] |].
  intros a Ha [<- | []]. apply mapGet_keys in Ha. destruct Ha as [v' Hv].
  congruence.
Qed.

Lemma trackStopWords_NoDup (found : list StopWordMatch.t) :
  forall m, NoDup (keys m) -> NoDup (keys (trackStopWords m found)).
Proof.
  unfold trackStopWords.
  induction found as [|item found IH]; intros m N; simpl; [exact N |].
  apply IH. apply mapSet_NoDup. exact N.
Qed.

Lemma occurrences_cons (w : jsString) (item : StopWordMatch.t)
  (found : list StopWordMatch.t) :
  occurrences w (item :: found)
  = (if eqbStr (StopWordMatch.word item) w then StopWordMatch.count item
     else 0) + occurrences w found.
Proof.
  unfold occurrences. simpl.
  destruct (eqbStr (StopWordMatch.word item) w); reflexivity.
Qed.

Lemma occurrences_absent (w : jsString) (found : list StopWordMatch.t) :
  hasWord found w = false -> occurrences w found = 0.
Proof.
  unfold hasWord. induction found as [|item found IH]; intros H.
  - reflexivity.
  - simpl in H. apply orb_false_iff in H. destruct H as [H1 H2].
    rewrite occurrences_cons, H1, (IH H2). reflexivity.
Qed.

(** After one snapshot: the words of the snapshot have their count added,
    the others keep theirs. *)
Lemma trackStopWords_get (found : list StopWordMatch.t) (w : jsString) :
  forall m,
    mapGet (trackStopWords m found) w
    = if hasWord found w
      then Some (orZero (mapGet m w) + occurrences w found)
      else mapGet m w.
Proof.
  unfold trackStopWords.
  induction found as [|item found IH]; intros m; simpl; [reflexivity |].
  rewrite IH, mapGet_mapSet, occurrences_cons.
  destruct (eqbStr (StopWordMatch.word item) w) eqn:E; simpl.
  - apply eqbStr_eq in E. rewrite E.
    destruct (hasWord found w) eqn:H; simpl; f_equal; [lia |].
    rewrite (occurrences_absent _ _ H). lia.
  - reflexivity.
Qed.

Lemma trackAll_NoDup (founds : list (list StopWordMatch.t)) :
  forall m, NoDup (keys m) -> NoDup (keys (trackAll founds m)).
Proof.
  unfold trackAll.
  induction founds as [|f founds IH]; intros m N; simpl; [exact N |].
  apply IH. apply trackStopWords_NoDup. exact N.
Qed.

Lemma occurrences_absent_all (w : jsString)
  (founds : list (list StopWordMatch.t)) :
  existsb (fun f => hasWord f w) founds = false ->
  list_sum (map (occurrences w) founds) = 0.
Proof.
  induction founds as [|f founds IH]; intros H; [reflexivity |].
  simpl in H. apply orb_false_iff in H. destruct H as [H1 H2].
  simpl. rewrite (occurrences_absent _ _ H1), (IH H2). reflexivity.
Qed.

(** After all the snapshots: the cumulative count of each word. *)
Lemma trackAll_get (founds : list (list StopWordMatch.t)) (w : jsString) :
  forall m,
    mapGet (trackAll founds m) w
    = if existsb (fun f => hasWord f w) founds
      then Some (orZero (mapGet m w) + list_sum (map (occurrences w) founds))
      else mapGet m w.
Proof.
  unfold trackAll.
  induction founds as [|f founds IH]; intros m; simpl; [reflexivity |].
  rewrite IH, trackStopWords_get.
  destruct (hasWord f w) eqn:H; simpl.
  - destruct (existsb (fun f0 => hasWord f0 w) founds) eqn:X;
      f_equal; [lia |].
    rewrite (occurrences_absent_all _ _ X). lia.
  - rewrite (occurrences_absent _ _ H). reflexivity.
Qed.

(** ** Sorting by count *)

Lemma insertByCount_perm (x : StopWordMatch.t) (l : list StopWordMatch.t) :
  Permutation (insertByCount x l) (x :: l).
Proof.
  induction l as [|y l IH]; simpl; [reflexivity |].
  destruct (StopWordMatch.count x <? StopWordMatch.count y); [| reflexivity].
  rewrite IH. apply perm_swap.
Qed.

Lemma sortByCountDesc_perm (l : list StopWordMatch.t) :
  Permutation (sortByCountDesc l) l.
Proof.
  induction l as [|x l IH]; simpl; [reflexivity |].
  rewrite insertByCount_perm. constructor. exact IH.
Qed.



Lemma words_entries (m : WordMap) : words (entries m) = keys m.
Proof.
  unfold words, entries, keys. rewrite map_map. reflexivity.
Qed.


(** ** Percentages *)

Lemma percentage_fraction (k n : nat) :
  0 < n ->
  (ofNat k / ofNat n * 100 == (100 * Z.of_nat k) # Pos.of_nat n)%Q.
Proof.
  intros H. destruct n as [|n]; [lia |].
  unfold ofNat, Qdiv, Qinv, Qmult, Qeq, inject_Z.
  rewrite <- Pos.of_nat_succ.
  cbn [Qnum Qden Z.of_nat]. lia.
Qed.

Lemma Zpos_of_nat (n : nat) : 0 < n -> Zpos (Pos.of_nat n) = Z.of_nat n.
Proof.
  intros H. destruct n as [|n]; [lia |].
  rewrite <- Pos.of_nat_succ. rewrite Zpos_P_of_succ_nat. lia.
Qed.

(** The comparisons of the source on the percentage, as comparisons of
    the two counts. *)
Lemma percentage_ge_50 (k n : nat) :
  0 < n -> (geQ (ofNat k / ofNat n * 100) 50 = true <-> n <= 2 * k).
Proof.
  intros H. unfold geQ. rewrite Qle_bool_iff, (percentage_fraction k H).
  unfold Qle. cbn [Qnum Qden]. rewrite (Zpos_of_nat H). lia.
Qed.

Lemma percentage_gt_0 (k n : nat) :
  0 < n -> (gtQ (ofNat k / ofNat n * 100) 0 = true <-> 0 < k).
Proof.
  intros H. unfold gtQ. rewrite negb_true_iff.
  rewrite <- not_true_iff_false, Qle_bool_iff, (percentage_fraction k H).
  unfold Qle. cbn [Qnum Qden]. lia.
Qed.

(** The percentage after rounding: the nearest multiple of 0.01. *)
Lemma percentage_rounded (k n : nat) :
  0 < n ->
  (round2 (ofNat k / ofNat n * 100)
   == ((20000 * Z.of_nat k + Z.of_nat n) / (2 * Z.of_nat n)) # 100)%Q.
Proof.
  intros H. rewrite (round2_proper (percentage_fraction k H)).
  rewrite round2_value. unfold Math_round, Qfloor, Qmult, Qplus.
  cbn [Qnum Qden]. rewrite !Pos2Z.inj_mul, (Zpos_of_nat H).
  replace (100 * Z.of_nat k * 100 * 2 + 1 * (Z.of_nat n * 1))%Z
    with (20000 * Z.of_nat k + Z.of_nat n)%Z by lia.
  replace (Z.of_nat n * 1 * 2)%Z with (2 * Z.of_nat n)%Z by lia.
  reflexivity.
Qed.

(** While at most 10000 snapshots are checked, the rounded percentage is
    on the same side of both thresholds as the percentage itself. *)
Lemma percentage_rounded_thresholds (k n : nat) :
  0 < n -> (Z.of_nat n <= 10000)%Z ->
  ((50 <= round2 (ofNat k / ofNat n * 100))%Q <-> n <= 2 * k) /\
  ((round2 (ofNat k / ofNat n * 100) == 0)%Q <-> k = 0) /\
  (0 <= round2 (ofNat k / ofNat n * 100))%Q.
Proof.
  intros H B. rewrite (percentage_rounded k H).
  set (a := (20000 * Z.of_nat k + Z.of_nat n)%Z).
  set (b := (2 * Z.of_nat n)%Z).
  assert (Hb : (0 < b)%Z) by (unfold b; lia).
  pose proof (Z.mul_div_le a b Hb) as L.
  pose proof (Z.mul_succ_div_gt a b Hb) as U.
  unfold Qle, Qeq. cbn [Qnum Qden]. unfold a, b in *.
  split; [| split]; [split; intros G | split; intros G |].
  - nia.
  - nia.
  - nia.
  - subst k. rewrite Z.mul_0_r, Z.add_0_l, Z.mul_1_r in *.
    rewrite Z.div_small; lia.
  - nia.
Qed.

(** ** The loop over the snapshots *)

Section Loop.

Variable Dom : Type.
Variable importCheerio : Res (ModuleNamespace Dom).
Variable regExpMeta : jsString -> jsString -> Res nat.
Variable client : WaybackClient.
Variable stopWords : list jsString.

Local Abbreviation turn' := (turn importCheerio regExpMeta client stopWords).
Local Abbreviation spamAnalyses' :=
  (spamAnalyses importCheerio regExpMeta client stopWords).
Local Abbreviation spamFound' :=
  (spamFound importCheerio regExpMeta client stopWords).

(** A turn of the loop never throws. *)
Lemma checkSnapshot_turn (st : LoopState) (snapshot : Snapshot.t) :
  checkSnapshot importCheerio regExpMeta client stopWords st snapshot
  = Ok (turn' st snapshot).
Proof.
  unfold checkSnapshot, turn, analysisOf, tryCatch, bind.
  destruct (getSnapshotHtml client snapshot) as [h | e]; [| reflexivity].
  destruct (analyzeHtmlForSpam importCheerio regExpMeta
              (HtmlResult.html h) stopWords); reflexivity.
Qed.

Lemma checkSnapshots_fold (snapshots : list Snapshot.t) :
  forall st,
    checkSnapshots importCheerio regExpMeta client stopWords snapshots st
    = Ok (fold_left turn' snapshots st).
Proof.
  induction snapshots as [|s rest IH]; intros st; simpl; [reflexivity |].
  rewrite checkSnapshot_turn. simpl. apply IH.
Qed.

Lemma fold_spamSnapshots (snapshots : list Snapshot.t) :
  forall st,
    spamSnapshots (fold_left turn' snapshots st)
    = spamSnapshots st + length (spamAnalyses' snapshots).
Proof.
  induction snapshots as [|s rest IH]; intros st; simpl; [lia |].
  rewrite IH. unfold turn, record.
  destruct (analysisOf importCheerio regExpMeta client stopWords s)
    as [a |]; [| reflexivity].
  destruct (HtmlAnalysis.isSpam a); simpl; lia.
Qed.

Lemma fold_totalSpamScore (snapshots : list Snapshot.t) :
  forall st,
    (totalSpamScore (fold_left turn' snapshots st)
     == totalSpamScore st
        + sumQ (map HtmlAnalysis.spamScore (spamAnalyses' snapshots)))%Q.
Proof.
  induction snapshots as [|s rest IH]; intros st; simpl.
  - rewrite Qplus_0_r. reflexivity.
  - rewrite IH. unfold turn, record.
    destruct (analysisOf importCheerio regExpMeta client stopWords s)
      as [a |]; [| reflexivity].
    destruct (HtmlAnalysis.isSpam a); simpl; [| reflexivity].
    rewrite Qplus_assoc. reflexivity.
Qed.

Lemma fold_allFoundStopWords (snapshots : list Snapshot.t) :
  forall st,
    allFoundStopWords (fold_left turn' snapshots st)
    = trackAll (spamFound' snapshots) (allFoundStopWords st).
Proof.
  unfold spamFound, trackAll.
  induction snapshots as [|s rest IH]; intros st; simpl; [reflexivity |].
  rewrite IH. unfold turn, record.
  destruct (analysisOf importCheerio regExpMeta client stopWords s)
    as [a |]; [| reflexivity].
  destruct (HtmlAnalysis.isSpam a); reflexivity.
Qed.

(** The three ways [analyzeDomainForSpam] ends. *)
Lemma analyzeDomainForSpam_analysed (domain : jsString)
  (maxSnapshots : nat) (snapshots : list Snapshot.t) :
  getSnapshots client domain maxSnapshots = Ok snapshots ->
  snapshots <> [] ->
  analyzeDomainForSpam importCheerio regExpMeta client domain stopWords
    maxSnapshots
  = Ok (Analysed
          (summarize domain (length snapshots)
             (fold_left turn' snapshots initialState))).
Proof.
  intros G N. unfold analyzeDomainForSpam. rewrite G. simpl.
  destruct snapshots as [|s rest]; [congruence |].
  rewrite checkSnapshots_fold. reflexivity.
Qed.

Lemma analyzeDomainForSpam_empty (domain : jsString) (maxSnapshots : nat) :
  getSnapshots client domain maxSnapshots = Ok [] ->
  analyzeDomainForSpam importCheerio regExpMeta client domain stopWords
    maxSnapshots
  = Ok (Empty (NoSnapshots.mk domain 0 false 0%Q 0 [] None no_snapshots)).
Proof.
  intros G. unfold analyzeDomainForSpam. rewrite G. reflexivity.
Qed.

Lemma analyzeDomainForSpam_throws (domain : jsString) (maxSnapshots : nat)
  (e : jsString) :
  getSnapshots client domain maxSnapshots = Throw e ->
  analyzeDomainForSpam importCheerio regExpMeta client domain stopWords
    maxSnapshots
  = Throw (js "Domain analysis failed: " ++ e).
Proof.
  intros G. unfold analyzeDomainForSpam. rewrite G. reflexivity.
Qed.

(** The status after the loop, by the two counts. *)
Lemma summarize_status (domain : jsString) (n : nat) (st : LoopState) :
  0 < n ->
  DomainAnalysis.status (summarize domain n st)
  = if n <=? 2 * spamSnapshots st then spam
    else if 0 <? spamSnapshots st then suspicious
    else clean.
Proof.
  intros H. unfold summarize. cbn [DomainAnalysis.status].
  pose proof (percentage_ge_50 (spamSnapshots st) H) as A.
  pose proof (percentage_gt_0 (spamSnapshots st) H) as B.
  destruct (geQ (ofNat (spamSnapshots st) / ofNat n * 100) 50).
  - destruct (Nat.leb_spec n (2 * spamSnapshots st)); [reflexivity |].
    assert (n <= 2 * spamSnapshots st) by (apply A; reflexivity). lia.
  - destruct (Nat.leb_spec n (2 * spamSnapshots st)) as [C | C].
    + apply A in C. discriminate.
    + destruct (gtQ (ofNat (spamSnapshots st) / ofNat n * 100) 0).
      * destruct (Nat.ltb_spec 0 (spamSnapshots st)); [reflexivity |].
        assert (0 < spamSnapshots st) by (apply B; reflexivity). lia.
      * destruct (Nat.ltb_spec 0 (spamSnapshots st)) as [D | D];
          [| reflexivity].
        apply B in D. discriminate.
Qed.

End Loop.

(** ** The domain analyzer *)

Lemma percentage_ge_50_iff (k n : nat) :
  0 < n -> ((50 <= ofNat k / ofNat n * 100)%Q <-> n <= 2 * k).
Proof.
  intros H. rewrite <- (percentage_ge_50 k H). unfold geQ.
  rewrite Qle_bool_iff. reflexivity.
Qed.

Lemma percentage_pos_iff (k n : nat) :
  0 < n -> ((0 < ofNat k / ofNat n * 100)%Q <-> 0 < k).
Proof.
  intros H. rewrite (percentage_fraction k H).
  unfold Qlt. cbn [Qnum Qden]. lia.
Qed.

Lemma percentage_zero_iff (k n : nat) :
  0 < n -> ((ofNat k / ofNat n * 100 == 0)%Q <-> k = 0).
Proof.
  intros H. rewrite (percentage_fraction k H).
  unfold Qeq. cbn [Qnum Qden]. lia.
Qed.

Lemma status_cases (s : Status) (k n : nat) :
  0 < n ->
  s = (if n <=? 2 * k then spam
       else if 0 <? k then suspicious else clean) ->
  (s = spam <-> n <= 2 * k) /\
  (s = suspicious <-> 0 < k /\ 2 * k < n) /\
  (s = clean <-> k = 0).
Proof.
  intros H ->.
  destruct (Nat.leb_spec n (2 * k)); [| destruct (Nat.ltb_spec 0 k)];
    repeat split; intros; try discriminate; try lia; try reflexivity.
Qed.

(** C2, as amended.  For every run of [analyzeDomainForSpam] over at least
    one snapshot, the status is decided by the percentage of snapshots
    flagged spam before it is rounded: [spam] when it is at least 50,
    [suspicious] when it is above 0 and below 50, [clean] when it is 0.
    The [spamPercentage] reported, which is that percentage after
    [Math.round(x * 100) / 100], satisfies the same three conditions
    whenever at most 10000 snapshots were checked. *)
Theorem analyzeDomain_status
  (Dom : Type) (importCheerio : Res (ModuleNamespace Dom))
  (regExpMeta : jsString -> jsString -> Res nat) (client : WaybackClient)
  (domain : jsString) (stopWords : list jsString) (maxSnapshots : nat)
  (snapshots : list Snapshot.t) :
  getSnapshots client domain maxSnapshots = Ok snapshots ->
  snapshots <> [] ->
  exists a,
    analyzeDomainForSpam importCheerio regExpMeta client domain stopWords
      maxSnapshots = Ok (Analysed a) /\
    DomainAnalysis.snapshotsChecked a = length snapshots /\
    let percentage :=
      (ofNat (DomainAnalysis.spamSnapshots a)
       / ofNat (DomainAnalysis.snapshotsChecked a) * 100)%Q in
    (DomainAnalysis.status a = spam <-> (50 <= percentage)%Q) /\
    (DomainAnalysis.status a = suspicious
     <-> (0 < percentage)%Q /\ (percentage < 50)%Q) /\
    (DomainAnalysis.status a = clean <-> (percentage == 0)%Q) /\
    ((Z.of_nat (DomainAnalysis.snapshotsChecked a) <= 10000)%Z ->
     (DomainAnalysis.status a = spam
      <-> (50 <= DomainAnalysis.spamPercentage a)%Q) /\
     (DomainAnalysis.status a = suspicious
      <-> (0 < DomainAnalysis.spamPercentage a)%Q /\
          (DomainAnalysis.spamPercentage a < 50)%Q) /\
     (DomainAnalysis.status a = clean
      <-> (DomainAnalysis.spamPercentage a == 0)%Q)).
Proof.
  intros G N. eexists. split.
  { apply (analyzeDomainForSpam_analysed _ _ _ _ _ _ G N). }
  set (st := fold_left _ snapshots initialState).
  assert (P : 0 < length snapshots).
  { destruct snapshots; [congruence | simpl; lia]. }
  destruct (status_cases (spamSnapshots st) P
              (summarize_status domain st P)) as [S1 [S2 S3]].
  unfold summarize in *.
  cbn [DomainAnalysis.status DomainAnalysis.spamPercentage
       DomainAnalysis.spamSnapshots DomainAnalysis.snapshotsChecked] in *.
  set (s := if geQ _ 50 then spam else _) in *. clearbody s.
  split; [reflexivity |].
  pose proof (percentage_ge_50_iff (spamSnapshots st) P) as A.
  pose proof (percentage_pos_iff (spamSnapshots st) P) as B.
  pose proof (percentage_zero_iff (spamSnapshots st) P) as C.
  split; [tauto |]. split.
  { rewrite S2, B. split; intros [X Y]; split; try assumption.
    - apply Qnot_le_lt. rewrite A. lia.
    - apply Qlt_not_le in Y. rewrite A in Y. lia. }
  split; [tauto |].
  intros Bd.
  destruct (percentage_rounded_thresholds (spamSnapshots st) P Bd)
    as [R1 [R2 R0]].
  split; [tauto |]. split; [| tauto].
  rewrite S2. split.
  - intros [X Y]. split.
    + apply Qnot_le_lt. intros Z.
      assert (E : (round2 (ofNat (spamSnapshots st)
                           / ofNat (length snapshots) * 100) == 0)%Q)
        by (apply Qle_antisym; assumption).
      apply R2 in E. lia.
    + apply Qnot_le_lt. rewrite R1. lia.
  - intros [X Y]. split.
    + destruct (spamSnapshots st) eqn:K; [| lia].
      assert (E : (round2 (ofNat 0 / ofNat (length snapshots) * 100) == 0)%Q)
        by (apply R2; reflexivity).
      rewrite E in X. discriminate.
    + apply Qlt_not_le in Y. rewrite R1 in Y. lia.
Qed.

Lemma existsb_hasWord (founds : list (list StopWordMatch.t)) (w : jsString) :
  existsb (fun f => hasWord f w) founds = true
  <-> exists f, In f founds /\ In w (words f).
Proof.
  rewrite existsb_exists. split; intros [f [H1 H2]]; exists f;
    (split; [exact H1 | apply hasWord_In; exact H2]).
Qed.


Lemma stopWordsFound_NoDup (m : WordMap) :
  NoDup (keys m) -> NoDup (words (sortByCountDesc (entries m))).
Proof.
  intros N. rewrite <- words_entries in N.
  apply (Permutation_NoDup (l := words (entries m))); [| exact N].
  unfold words. apply Permutation_map. apply Permutation_sym.
  apply sortByCountDesc_perm.
Qed.

(** The keys of the map are the distinct words of the snapshots. *)
Lemma trackAll_length (founds : list (list StopWordMatch.t)) :
  length (trackAll founds []) = length (distinctWords founds).
Proof.
  rewrite <- (length_map fst). fold (keys (trackAll founds [])).
  apply Permutation_length. apply NoDup_Permutation.
  - apply trackAll_NoDup. constructor.
  - apply NoDup_nodup.
  - intros w. unfold distinctWords. rewrite nodup_In, in_concat.
    rewrite mapGet_keys, trackAll_get. split.
    + intros [v H].
      destruct (existsb (fun f => hasWord f w) founds) eqn:X;
        [| discriminate].
      apply existsb_hasWord in X. destruct X as [f [H1 H2]].
      exists (words f). split; [apply in_map; exact H1 | exact H2].
    + intros [l [H1 H2]]. apply in_map_iff in H1.
      destruct H1 as [f [<- H1]].
      assert (X : existsb (fun f => hasWord f w) founds = true).
      { apply existsb_hasWord. eauto. }
      rewrite X. eauto.
Qed.


(** C10.  In every analysis produced from at least one snapshot,
    [totalStopWordsFound] is the length of [stopWordsFound], whose words
    are distinct, and is the number of distinct words found in the
    snapshots flagged spam; it is not the sum of the counts. *)
Theorem totalStopWordsFound_distinct
  (Dom : Type) (importCheerio : Res (ModuleNamespace Dom))
  (regExpMeta : jsString -> jsString -> Res nat) (client : WaybackClient)
  (domain : jsString) (stopWords : list jsString) (maxSnapshots : nat)
  (snapshots : list Snapshot.t) :
  getSnapshots client domain maxSnapshots = Ok snapshots ->
  snapshots <> [] ->
  exists a,
    analyzeDomainForSpam importCheerio regExpMeta client domain stopWords
      maxSnapshots = Ok (Analysed a) /\
    DomainAnalysis.totalStopWordsFound a
    = length (DomainAnalysis.stopWordsFound a) /\
    NoDup (words (DomainAnalysis.stopWordsFound a)) /\
    DomainAnalysis.totalStopWordsFound a
    = length (distinctWords
                (spamFound importCheerio regExpMeta client stopWords
                   snapshots)).
Proof.
  intros G N. eexists. split.
  { apply (analyzeDomainForSpam_analysed _ _ _ _ _ _ G N). }
  set (st := fold_left _ snapshots initialState).
  assert (M : allFoundStopWords st
              = trackAll (spamFound importCheerio regExpMeta client
                            stopWords snapshots) []).
  { unfold st. rewrite fold_allFoundStopWords. reflexivity. }
  unfold summarize.
  cbn [DomainAnalysis.totalStopWordsFound DomainAnalysis.stopWordsFound].
  rewrite M. repeat split.
  - rewrite (Permutation_length (sortByCountDesc_perm _)).
    unfold entries. rewrite length_map. reflexivity.
  - apply stopWordsFound_NoDup. apply trackAll_NoDup. constructor.
  - apply trackAll_length.
Qed.

(** The early return.  When the client lists no snapshot for the domain,
    [analyzeDomainForSpam] returns the record with status [no_snapshots],
    [spamDetected] false, [snapshotsChecked], [spamScore] and
    [totalStopWordsFound] 0, [stopWordsFound] empty and [firstSpamDate]
    null; that record has no [spamSnapshots], [spamPercentage] or
    [avgSpamScore]. *)
Theorem analyzeDomain_no_snapshots
  (Dom : Type) (importCheerio : Res (ModuleNamespace Dom))
  (regExpMeta : jsString -> jsString -> Res nat) (client : WaybackClient)
  (domain : jsString) (stopWords : list jsString) (maxSnapshots : nat) :
  getSnapshots client domain maxSnapshots = Ok [] ->
  exists r,
    analyzeDomainForSpam importCheerio regExpMeta client domain stopWords
      maxSnapshots = Ok (Empty r) /\
    r = NoSnapshots.mk domain 0 false 0%Q 0 [] None no_snapshots /\
    statusOf (Empty r) = no_snapshots /\
    snapshotsCheckedOf (Empty r) = Some 0 /\
    spamScoreOf (Empty r) = Some 0%Q /\
    spamSnapshotsOf (Empty r) = None /\
    spamPercentageOf (Empty r) = None /\
    avgSpamScoreOf (Empty r) = None.
Proof.
  intros G. eexists. split.
  { apply (analyzeDomainForSpam_empty _ _ _ _ _ _ G). }
  repeat split.
Qed.

(** ** The batch analyzer *)

Section Batch.

Variable Dom : Type.
Variable importCheerio : Res (ModuleNamespace Dom).
Variable regExpMeta : jsString -> jsString -> Res nat.
Variable client : WaybackClient.
Variable stopWords : list jsString.
Variable maxSnapshots : nat.

Local Abbreviation recordFor' :=
  (recordFor importCheerio regExpMeta client stopWords maxSnapshots).

Lemma analyzeEach_map (domains : list jsString) :
  forall results,
    analyzeEach importCheerio regExpMeta client domains stopWords
      maxSnapshots results
    = Ok (results ++ map recordFor' (filter truthy (map trim domains))).
Proof.
  induction domains as [|d rest IH]; intros results; simpl.
  - rewrite app_nil_r. reflexivity.
  - destruct (truthy (trim d)); simpl; [| apply IH].
    unfold recordFor at 1.
    destruct (analyzeDomainForSpam importCheerio regExpMeta client
                (trim d) stopWords maxSnapshots) as [r | e]; simpl;
      rewrite IH, <- app_assoc; reflexivity.
Qed.

Lemma analyzeDomainForSpam_domain (domain : jsString) (r : DomainResult) :
  analyzeDomainForSpam importCheerio regExpMeta client domain stopWords
    maxSnapshots = Ok r ->
  domainOf r = domain.
Proof.
  unfold analyzeDomainForSpam.
  destruct (getSnapshots client domain maxSnapshots) as [[|s l] | e];
    simpl; [| | discriminate].
  - intros H. inversion H. reflexivity.
  - rewrite checkSnapshot_turn. simpl. rewrite checkSnapshots_fold. simpl.
    intros H. inversion H. reflexivity.
Qed.

Lemma recordFor_domain (domain : jsString) :
  domainOf (recordFor' domain) = domain.
Proof.
  unfold recordFor.
  destruct (analyzeDomainForSpam importCheerio regExpMeta client domain
              stopWords maxSnapshots) as [r | e] eqn:E; [| reflexivity].
  apply (analyzeDomainForSpam_domain _ E).
Qed.

End Batch.

(** C3.  For every list of domains, [analyzeDomainsForSpam] returns, and
    returns one record for each domain that is not blank once trimmed, in
    the order of the input: the result of [analyzeDomainForSpam] on the
    trimmed domain when it returns one, and the record with the domain,
    the message and the status [error] when it throws, as it does when
    the client fails to list the snapshots; whether one domain throws
    changes nothing for the others. *)
Theorem analyzeDomains_complete
  (Dom : Type) (importCheerio : Res (ModuleNamespace Dom))
  (regExpMeta : jsString -> jsString -> Res nat) (client : WaybackClient)
  (domains : list jsString) (stopWords : list jsString)
  (maxSnapshots : nat) :
  exists results,
    analyzeDomainsForSpam importCheerio regExpMeta client domains stopWords
      maxSnapshots = Ok results /\
    results
    = map (fun domain =>
             match
               analyzeDomainForSpam importCheerio regExpMeta client domain
                 stopWords maxSnapshots
             with
             | Ok r => r
             | Throw message =>
                 Failed (ErrorRecord.mk domain message error)
             end)
        (filter truthy (map trim domains)) /\
    map domainOf results = filter truthy (map trim domains) /\
    length results = length (filter truthy (map trim domains)) /\
    (forall domain e,
        getSnapshots client domain maxSnapshots = Throw e ->
        analyzeDomainForSpam importCheerio regExpMeta client domain
          stopWords maxSnapshots
        = Throw (js "Domain analysis failed: " ++ e)).
Proof.
  eexists. split.
  { unfold analyzeDomainsForSpam. rewrite analyzeEach_map. reflexivity. }
  simpl. split; [reflexivity |]. split; [| split].
  - rewrite map_map. rewrite <- (map_id (filter truthy (map trim domains)))
      at 2.
    apply map_ext. intros d. apply recordFor_domain.
  - apply length_map.
  - intros domain e G. apply analyzeDomainForSpam_throws. exact G.
Qed.

(** ** Examples *)

(** The examples of the specification for the scorer and the extractor. *)
Example score_case_insensitive :
  checkStopWords rejectMeta (js "BUY NOW") [js "buy"]
  = Ok (ScoreResult.mk [StopWordMatch.mk (js "buy") 1] 1 (5000 # 100)).
Proof. vm_compute. reflexivity. Qed.

Example score_degenerate :
  checkStopWords rejectMeta [] [js "buy"] = Ok (ScoreResult.mk [] 0 0%Q) /\
  checkStopWords rejectMeta (js "buy now") [] = Ok (ScoreResult.mk [] 0 0%Q).
Proof. split; reflexivity. Qed.

(** A stop word that is not a valid pattern: [new RegExp('c++', 'gi')] is
    a [SyntaxError] (nothing to repeat), and the scorer throws it. *)
Example score_rejected_pattern :
  checkStopWords rejectMeta (js "learn c++ today") [js "c++"]
  = Throw (js "Invalid regular expression").
Proof. vm_compute. reflexivity. Qed.

Example fallback_strips_script :
  fallbackText (js "<script>evil()</script><p>Hello World</p>")
  = js "hello world".
Proof. vm_compute. reflexivity. Qed.

(** The stop word [c++] occurs in the text and is not a pattern: the
    scorer throws, and [buy], which occurs too, is not reported. *)
Lemma checkStopWords_rejected_pattern_witness :
  ciSubstring (normalize (js "c++")) (js "buy c++") /\
  ciSubstring (normalize (js "buy")) (js "buy c++") /\
  exists e',
    checkStopWords rejectMeta (js "buy c++") [js "buy"; js "c++"]
    = Throw e'.
Proof.
  assert (C : ciSubstring (normalize (js "c++")) (js "buy c++")).
  { exists (js "buy "), (js "c++"), []. split; reflexivity. }
  split; [exact C |]. split.
  { exists [], (js "buy"), (js " c++"). split; reflexivity. }
  apply (@checkStopWords_rejected_pattern rejectMeta (js "buy c++")
           [js "buy"; js "c++"] (js "c++") (js "Invalid regular expression")).
  - right. left. reflexivity.
  - vm_compute. discriminate.
  - exact C.
  - reflexivity.
  - reflexivity.
Defined.

Lemma checkStopWords_found_iff_witness :
  exists r,
    checkStopWords rejectMeta (js "classical") [js "class"] = Ok r /\
    (In (normalize (js "class")) (words (ScoreResult.found r))
     <-> ciSubstring (normalize (js "class")) (js "classical")) /\
    words (ScoreResult.found r) = [js "class"].
Proof.
  pose proof (@checkStopWords_found_iff rejectMeta (js "classical")
                [js "class"] (js "class") (or_introl eq_refl)) as H.
  assert (N : normalize (js "class") <> []) by (vm_compute; discriminate).
  specialize (H N).
  destruct (checkStopWords rejectMeta (js "classical") [js "class"])
    as [r | e] eqn:E.
  - exists r. split; [reflexivity |]. split; [exact (proj1 H) |].
    vm_compute in E. inversion E. reflexivity.
  - vm_compute in E. discriminate.
Defined.

Lemma isSpam_iff_count_witness :
  exists a,
    analyzeHtmlForSpam cheerioMissing rejectMeta halfSpamPage [js "buy"]
    = Ok a /\
    HtmlAnalysis.isSpam a = true /\
    ScoreResult.count (HtmlAnalysis.stopWords a) = 1 /\
    gtQ (ScoreResult.score (HtmlAnalysis.stopWords a)) 5 = true.
Proof.
  pose proof (isSpam_iff_count cheerioMissing rejectMeta halfSpamPage
                [js "buy"]) as H.
  destruct (analyzeHtmlForSpam cheerioMissing rejectMeta halfSpamPage
              [js "buy"]) as [a | e] eqn:E.
  - exists a. destruct H as [H1 H2]. vm_compute in E. inversion E; subst.
    repeat split.
  - vm_compute in E. discriminate.
Defined.

Lemma analyzeDomain_status_witness :
  exists a,
    runDomain (archive [js "1"; js "4"; js "2"; js "4"] pages)
      (js "a.example") 10 = Ok (Analysed a) /\
    DomainAnalysis.snapshotsChecked a = 4 /\
    DomainAnalysis.spamSnapshots a = 2 /\
    (DomainAnalysis.spamPercentage a == 50)%Q /\
    DomainAnalysis.status a = spam.
Proof.
  edestruct (@analyzeDomain_status unit cheerioMissing rejectMeta
               (archive [js "1"; js "4"; js "2"; js "4"] pages)
               (js "a.example") [js "buy"] 10)
    as [a [E [_ [S _]]]].
  - vm_compute. reflexivity.
  - discriminate.
  - exists a. split; [exact E |].
    assert (T : DomainAnalysis.status a = spam).
    { apply S. vm_compute in E. inversion E; subst.
      vm_compute. discriminate. }
    vm_compute in E. inversion E; subst. repeat split.
Defined.


Lemma totalStopWordsFound_distinct_witness :
  exists a,
    runDomain (archive [js "1"; js "2"; js "3"] pages) (js "a.example") 10
    = Ok (Analysed a) /\
    DomainAnalysis.totalStopWordsFound a = 1 /\
    length (DomainAnalysis.stopWordsFound a) = 1 /\
    list_sum (map StopWordMatch.count (DomainAnalysis.stopWordsFound a)) = 3.
Proof.
  edestruct (@totalStopWordsFound_distinct unit cheerioMissing rejectMeta
               (archive [js "1"; js "2"; js "3"] pages)
               (js "a.example") [js "buy"] 10)
    as [a [E [L _]]].
  - vm_compute. reflexivity.
  - discriminate.
  - exists a. split; [exact E |]. rewrite <- L.
    vm_compute in E. inversion E; subst. repeat split.
Defined.

Lemma analyzeDomain_no_snapshots_witness :
  exists r,
    runDomain (archive [] pages) (js "a.example") 10 = Ok (Empty r) /\
    NoSnapshots.status r = no_snapshots /\
    NoSnapshots.spamDetected r = false /\
    NoSnapshots.snapshotsChecked r = 0.
Proof.
  destruct (@analyzeDomain_no_snapshots unit cheerioMissing rejectMeta
              (archive [] pages) (js "a.example") [js "buy"] 10 eq_refl)
    as [r [E [-> _]]].
  eexists. split; [exact E |]. repeat split.
Defined.

Lemma analyzeDomains_complete_witness :
  exists results,
    analyzeDomainsForSpam cheerioMissing rejectMeta
      (archive [js "1"; js "4"] pages)
      [js " a.example "; js "  "; js "down.example"; js "b.example"]
      [js "buy"] 10 = Ok results /\
    map domainOf results
    = [js "a.example"; js "down.example"; js "b.example"] /\
    map statusOf results = [spam; error; spam].
Proof.
  destruct (analyzeDomains_complete cheerioMissing rejectMeta
              (archive [js "1"; js "4"] pages)
              [js " a.example "; js "  "; js "down.example"; js "b.example"]
              [js "buy"] 10)
    as [results [E [R [D _]]]].
  exists results. split; [exact E |]. split.
  - rewrite D. vm_compute. reflexivity.
  - rewrite R. vm_compute. reflexivity.
Defined.

(** C4.  The analysis of a domain for which the client lists no
    snapshot returns the record of the early return: its status is
    [no_snapshots] and [snapshotsChecked] is 0, but reading
    [spamSnapshots], [spamPercentage] or [avgSpamScore] from it gives
    [undefined], not 0, and it carries a [spamScore].  The record of a
    domain with one clean snapshot, built by the other return of the same
    function, has the three fields, all 0, and no [spamScore]. *)
Lemma no_snapshots_record_lacks_fields :
  exists r r',
    runDomain (archive [] pages) (js "a.example") 10 = Ok r /\
    statusOf r = no_snapshots /\
    snapshotsCheckedOf r = Some 0 /\
    spamSnapshotsOf r = None /\
    spamPercentageOf r = None /\
    avgSpamScoreOf r = None /\
    spamScoreOf r = Some 0%Q /\
    runDomain (archive [js "4"] pages) (js "a.example") 10 = Ok r' /\
    statusOf r' = clean /\
    spamSnapshotsOf r' = Some 0 /\
    (exists p, spamPercentageOf r' = Some p /\ (p == 0)%Q) /\
    (exists s, avgSpamScoreOf r' = Some s /\ (s == 0)%Q) /\
    spamScoreOf r' = None.
Proof.
  eexists. eexists. split; [vm_compute; reflexivity |].
  do 6 (split; [reflexivity |]).
  split; [vm_compute; reflexivity |].
  do 2 (split; [reflexivity |]).
  split; [eexists; split; reflexivity |].
  split; [eexists; split; reflexivity |].
  reflexivity.
Qed.


(** One snapshot flagged spam followed by [m] clean ones. *)
Lemma archive_lists_all (timestamps : list jsString) (limit : nat) :
  length timestamps <= limit ->
  getSnapshots (archive timestamps pages) (js "a.example") limit
  = Ok (map (fun t => Snapshot.mk t (js "a.example")) timestamps).
Proof.
  intros H. unfold archive. cbn [getSnapshots].
  replace (eqbStr (js "a.example") (js "down.example")) with false
    by (vm_compute; reflexivity).
  rewrite firstn_all2; [reflexivity |]. rewrite length_map. exact H.
Qed.

Lemma clean_snapshots_not_flagged (timestamps : list jsString) (m : nat) :
  spamAnalyses cheerioMissing rejectMeta (archive timestamps pages)
    [js "buy"] (repeat (Snapshot.mk (js "4") (js "a.example")) m)
  = [].
Proof.
  induction m as [|m IH]; [reflexivity |].
  cbn [repeat spamAnalyses].
  replace (analysisOf cheerioMissing rejectMeta (archive timestamps pages)
             [js "buy"] (Snapshot.mk (js "4") (js "a.example")))
    with (analysisOf cheerioMissing rejectMeta (archive [] pages)
            [js "buy"] (Snapshot.mk (js "4") (js "a.example")))
    by reflexivity.
  destruct (analysisOf cheerioMissing rejectMeta (archive [] pages)
              [js "buy"] (Snapshot.mk (js "4") (js "a.example")))
    as [a |] eqn:E; [| exact IH].
  vm_compute in E. inversion E; subst. exact IH.
Qed.

Lemma rare_spam_flagged (timestamps : list jsString) (m : nat) :
  length
    (spamAnalyses cheerioMissing rejectMeta (archive timestamps pages)
       [js "buy"]
       (Snapshot.mk (js "1") (js "a.example")
        :: repeat (Snapshot.mk (js "4") (js "a.example")) m))
  = 1.
Proof.
  cbn [spamAnalyses].
  replace (analysisOf cheerioMissing rejectMeta (archive timestamps pages)
             [js "buy"] (Snapshot.mk (js "1") (js "a.example")))
    with (analysisOf cheerioMissing rejectMeta (archive [] pages)
            [js "buy"] (Snapshot.mk (js "1") (js "a.example")))
    by reflexivity.
  destruct (analysisOf cheerioMissing rejectMeta (archive [] pages)
              [js "buy"] (Snapshot.mk (js "1") (js "a.example")))
    as [a |] eqn:E; vm_compute in E; [| discriminate].
  inversion E; subst. cbn [HtmlAnalysis.isSpam].
  rewrite clean_snapshots_not_flagged. reflexivity.
Qed.

Lemma rare_spam_run (m : nat) :
  (20000 < Z.of_nat (S m))%Z ->
  exists a,
    runDomain (archive (js "1" :: repeat (js "4") m) pages)
      (js "a.example") (S m) = Ok (Analysed a) /\
    DomainAnalysis.snapshotsChecked a = S m /\
    DomainAnalysis.spamSnapshots a = 1 /\
    (DomainAnalysis.spamPercentage a == 0)%Q /\
    DomainAnalysis.status a = suspicious.
Proof.
  intros B.
  set (ts := js "1" :: repeat (js "4") m).
  assert (G : getSnapshots (archive ts pages) (js "a.example") (S m)
              = Ok (Snapshot.mk (js "1") (js "a.example")
                    :: repeat (Snapshot.mk (js "4") (js "a.example")) m)).
  { rewrite archive_lists_all.
    - unfold ts. cbn [map]. rewrite map_repeat. reflexivity.
    - unfold ts. cbn [length]. rewrite repeat_length. lia. }
  eexists. split.
  { unfold runDomain.
    apply (analyzeDomainForSpam_analysed _ _ _ _ _ _ G). discriminate. }
  set (st := fold_left _ _ initialState).
  assert (K : spamSnapshots st = 1).
  { unfold st. rewrite fold_spamSnapshots. cbn [spamSnapshots initialState].
    rewrite rare_spam_flagged. reflexivity. }
  assert (L : length (Snapshot.mk (js "1") (js "a.example")
                      :: repeat (Snapshot.mk (js "4") (js "a.example")) m)
              = S m).
  { cbn [length]. rewrite repeat_length. reflexivity. }
  rewrite L.
  assert (P : 0 < S m) by lia.
  split; [reflexivity |]. split; [exact K |]. split.
  - unfold summarize. cbn [DomainAnalysis.spamPercentage]. rewrite K.
    rewrite (percentage_rounded 1 P).
    rewrite Z.div_small; [reflexivity | lia].
  - rewrite (summarize_status _ _ P), K.
    destruct (Nat.leb_spec (S m) (2 * 1)); [lia | reflexivity].
Qed.

(** 25000 snapshots of which one is flagged spam: the percentage reported
    is 0.00 and the status is [suspicious], not [clean]. *)
Lemma status_ignores_rounding :
  exists a,
    runDomain (archive (js "1" :: repeat (js "4") (N.to_nat 24999)) pages)
      (js "a.example") (S (N.to_nat 24999)) = Ok (Analysed a) /\
    (Z.of_nat (DomainAnalysis.snapshotsChecked a) = 25000)%Z /\
    DomainAnalysis.spamSnapshots a = 1 /\
    (DomainAnalysis.spamPercentage a == 0)%Q /\
    DomainAnalysis.status a = suspicious /\
    DomainAnalysis.status a <> clean.
Proof.
  destruct (rare_spam_run (m := N.to_nat 24999)) as [a [E [C [K [P S]]]]].
  - rewrite Nat2Z.inj_succ, N_nat_Z. reflexivity.
  - exists a. split; [exact E |]. split.
    + rewrite C, Nat2Z.inj_succ, N_nat_Z. reflexivity.
    + rewrite S. repeat split; try assumption. discriminate.
Qed.

(** * Further properties *)

(** ** Trimming *)

Lemma trimStart_leading (s : jsString) : leadingSpace (trimStart s) = 0.
Proof.
  induction s as [|c s IH]; simpl; [reflexivity |].
  destruct (isSpace c) eqn:W; [exact IH | simpl; rewrite W; reflexivity].
Qed.

Lemma trimStart_fixed (s : jsString) : leadingSpace s = 0 -> trimStart s = s.
Proof.
  destruct s as [|c s]; simpl; [reflexivity |].
  destruct (isSpace c); [discriminate | reflexivity].
Qed.

Lemma lastIsSpace_rev (s : jsString) :
  forall previous,
    lastIsSpace s previous
    = match rev s with
      | c :: _ => isSpace c
      | [] => previous
      end.
Proof.
  induction s as [|c s IH]; intros previous; simpl; [reflexivity |].
  rewrite IH. destruct (rev s); reflexivity.
Qed.

Lemma trailingSpace_rev (s : jsString) :
  trailingSpace s = leadingSpace (rev s).
Proof.
  unfold trailingSpace, leadingSpace. rewrite lastIsSpace_rev.
  destruct (rev s); reflexivity.
Qed.

Lemma trimStart_suffix (s : jsString) :
  exists spaces, s = spaces ++ trimStart s /\ forallb isSpace spaces = true.
Proof.
  induction s as [|c s [spaces [E F]]]; simpl.
  - exists []. auto.
  - destruct (isSpace c) eqn:W.
    + exists (c :: spaces). simpl. rewrite W, F, <- E. auto.
    + exists []. auto.
Qed.

Lemma trimEnd_prefix (s : jsString) :
  exists spaces, s = trimEnd s ++ spaces /\ forallb isSpace spaces = true.
Proof.
  unfold trimEnd. destruct (trimStart_suffix (rev s)) as [spaces [E F]].
  exists (rev spaces). split.
  - rewrite <- rev_app_distr, <- E, rev_involutive. reflexivity.
  - rewrite forallb_forall in *. intros c H. apply F. apply in_rev. exact H.
Qed.

Lemma trimEnd_trailing (s : jsString) : trailingSpace (trimEnd s) = 0.
Proof.
  rewrite trailingSpace_rev. unfold trimEnd. rewrite rev_involutive.
  apply trimStart_leading.
Qed.

Lemma trimEnd_leading (s : jsString) :
  leadingSpace s = 0 -> leadingSpace (trimEnd s) = 0.
Proof.
  intros L. destruct (trimEnd_prefix s) as [spaces [E _]].
  destruct (trimEnd s) as [|c t]; [reflexivity |].
  rewrite E in L. exact L.
Qed.

Lemma trimEnd_fixed (s : jsString) : trailingSpace s = 0 -> trimEnd s = s.
Proof.
  intros T. unfold trimEnd. rewrite trailingSpace_rev in T.
  rewrite (trimStart_fixed _ T). apply rev_involutive.
Qed.

(** A trimmed string has no whitespace at either end, and [trim] leaves
    such a string as it is. *)
Lemma trim_edges (s : jsString) :
  leadingSpace (trim s) = 0 /\ trailingSpace (trim s) = 0.
Proof.
  unfold trim. split.
  - apply trimEnd_leading. apply trimStart_leading.
  - apply trimEnd_trailing.
Qed.

Lemma trim_fixed (s : jsString) :
  leadingSpace s = 0 -> trailingSpace s = 0 -> trim s = s.
Proof.
  intros L T. unfold trim. rewrite (trimStart_fixed _ L).
  apply trimEnd_fixed. exact T.
Qed.

Lemma trim_idempotent (s : jsString) : trim (trim s) = trim s.
Proof. apply trim_fixed; apply trim_edges. Qed.

Lemma trim_segment (s : jsString) :
  exists before after, s = before ++ trim s ++ after.
Proof.
  destruct (trimStart_suffix s) as [b [E _]].
  destruct (trimEnd_prefix (trimStart s)) as [a [E' _]].
  exists b, a. unfold trim. rewrite <- E'. exact E.
Qed.

Lemma normalize_idempotent (w : jsString) :
  normalize (normalize w) = normalize w.
Proof.
  unfold normalize at 1. rewrite normalize_lowered.
  unfold normalize. apply trim_idempotent.
Qed.

(** ** Lowercasing and whitespace *)

Lemma isSpace_toLowerChar (c : ascii) : isSpace (toLowerChar c) = isSpace c.
Proof.
  destruct c as [[] [] [] [] [] [] [] []]; reflexivity.
Qed.

Lemma toLowerChar_space (c : ascii) :
  isSpace c = true -> toLowerChar c = c.
Proof.
  destruct c as [[] [] [] [] [] [] [] []]; intros H;
    try reflexivity; discriminate.
Qed.

Lemma leadingSpace_toLowerCase (s : jsString) :
  leadingSpace (toLowerCase s) = leadingSpace s.
Proof.
  destruct s as [|c s]; simpl; [reflexivity |].
  rewrite isSpace_toLowerChar. reflexivity.
Qed.

Lemma lastIsSpace_toLowerCase (s : jsString) :
  forall previous,
    lastIsSpace (toLowerCase s) previous = lastIsSpace s previous.
Proof.
  induction s as [|c s IH]; intros previous; simpl; [reflexivity |].
  rewrite isSpace_toLowerChar. apply IH.
Qed.

Lemma trailingSpace_toLowerCase (s : jsString) :
  trailingSpace (toLowerCase s) = trailingSpace s.
Proof.
  unfold trailingSpace. rewrite lastIsSpace_toLowerCase. reflexivity.
Qed.

Lemma tokenLoop_toLowerCase (s : jsString) :
  forall inToken, tokenLoop (toLowerCase s) inToken = tokenLoop s inToken.
Proof.
  induction s as [|c s IH]; intros inToken; simpl; [reflexivity |].
  rewrite isSpace_toLowerChar, !IH. reflexivity.
Qed.

Lemma plainSpaces_toLowerCase (s : jsString) :
  plainSpaces s -> plainSpaces (toLowerCase s).
Proof.
  unfold plainSpaces, toLowerCase. intros H. apply Forall_map.
  apply (Forall_impl _ (P := fun c => isSpace c = true -> c = " "%char));
    [| exact H].
  intros c Hc W. rewrite isSpace_toLowerChar in W.
  rewrite (Hc W). reflexivity.
Qed.

Lemma singleSpaced_cons (c d : ascii) (s : jsString) :
  singleSpaced (c :: d :: s)
  <-> (isSpace c = true -> isSpace d = false) /\ singleSpaced (d :: s).
Proof. reflexivity. Qed.

Lemma singleSpaced_toLowerCase (s : jsString) :
  singleSpaced s -> singleSpaced (toLowerCase s).
Proof.
  induction s as [|c s IH]; [trivial |].
  destruct s as [|d s]; [intros _; exact I |].
  rewrite singleSpaced_cons. intros [H1 H2].
  change (toLowerCase (c :: d :: s))
    with (toLowerChar c :: toLowerChar d :: toLowerCase s).
  rewrite singleSpaced_cons, !isSpace_toLowerChar. split; [exact H1 |].
  apply IH. exact H2.
Qed.

Lemma plainSpaces_app (a b : jsString) :
  plainSpaces (a ++ b) <-> plainSpaces a /\ plainSpaces b.
Proof. apply Forall_app. Qed.

Lemma singleSpaced_app (a b : jsString) :
  singleSpaced (a ++ b) -> singleSpaced a /\ singleSpaced b.
Proof.
  induction a as [|c a IH]; [simpl; tauto |].
  destruct a as [|d a].
  - destruct b as [|e b]; [simpl; tauto |].
    change ([c] ++ e :: b) with (c :: e :: b).
    rewrite singleSpaced_cons. simpl. tauto.
  - change ((c :: d :: a) ++ b) with (c :: d :: (a ++ b)).
    rewrite !singleSpaced_cons. intros [H1 H2].
    destruct (IH H2) as [H3 H4]. tauto.
Qed.

(** ** Collapsing whitespace *)

Lemma collapse_skip (s : jsString) :
  replaceLoop spaceMatchAt (js " ") s (spaceRun s)
  = replaceAll spaceMatchAt (js " ") (trimStart s).
Proof.
  induction s as [|c s IH]; simpl; [reflexivity |].
  destruct (isSpace c) eqn:W; simpl.
  - exact IH.
  - unfold replaceAll. simpl. reflexivity.
Qed.

Lemma collapse_cons (c : ascii) (s : jsString) :
  replaceAll spaceMatchAt (js " ") (c :: s)
  = if isSpace c
    then " "%char :: replaceAll spaceMatchAt (js " ") (trimStart s)
    else c :: replaceAll spaceMatchAt (js " ") s.
Proof.
  unfold replaceAll at 1. cbn [replaceLoop]. unfold spaceMatchAt.
  cbn [spaceRun]. destruct (isSpace c) eqn:W.
  - rewrite collapse_skip. reflexivity.
  - reflexivity.
Qed.

Lemma trimStart_length (s : jsString) : length (trimStart s) <= length s.
Proof.
  induction s as [|c s IH]; simpl; [lia |].
  destruct (isSpace c); simpl; lia.
Qed.

Lemma collapse_leading (s : jsString) :
  leadingSpace s = 0 ->
  leadingSpace (replaceAll spaceMatchAt (js " ") s) = 0.
Proof.
  destruct s as [|c s]; [reflexivity |].
  rewrite collapse_cons. simpl. destruct (isSpace c) eqn:W;
    [discriminate | simpl; rewrite W; reflexivity].
Qed.

(** After [replace(/\s+/g, ' ')] every whitespace is one plain space. *)
Lemma collapse_spaces (n : nat) :
  forall s, length s <= n ->
    plainSpaces (replaceAll spaceMatchAt (js " ") s) /\
    singleSpaced (replaceAll spaceMatchAt (js " ") s).
Proof.
  induction n as [|n IH]; intros s H.
  - destruct s; [| simpl in H; lia]. split; [constructor | exact I].
  - destruct s as [|c s]; [split; [constructor | exact I] |].
    simpl in H. rewrite collapse_cons. destruct (isSpace c) eqn:W.
    + pose proof (trimStart_length s) as T.
      destruct (IH (trimStart s)) as [P S]; [lia |].
      pose proof (collapse_leading (trimStart s) (trimStart_leading s)) as L.
      split; [constructor; auto |].
      destruct (replaceAll spaceMatchAt (js " ") (trimStart s)) as [|d r];
        [exact I |].
      split; [| exact S]. intros _. simpl in L.
      destruct (isSpace d); [discriminate | reflexivity].
    + destruct (IH s) as [P S]; [lia |].
      split; [constructor; [congruence | exact P] |].
      destruct (replaceAll spaceMatchAt (js " ") s) as [|d r]; [exact I |].
      split; [congruence | exact S].
Qed.

(** The three last steps of both paths: collapse, trim, lowercase. *)
Lemma finish_normalText (s : jsString) :
  normalText (toLowerCase (trim (replaceAll spaceMatchAt (js " ") s))).
Proof.
  destruct (@collapse_spaces (length s) s (le_n _)) as [P S].
  destruct (trim_segment (replaceAll spaceMatchAt (js " ") s))
    as [b [a E]].
  rewrite E in P, S.
  apply plainSpaces_app in P. destruct P as [_ P].
  apply plainSpaces_app in P. destruct P as [P _].
  apply singleSpaced_app in S. destruct S as [_ S].
  apply singleSpaced_app in S. destruct S as [S _].
  destruct (trim_edges (replaceAll spaceMatchAt (js " ") s)) as [L T].
  unfold normalText. repeat split.
  - apply lowered_toLowerCase.
  - rewrite leadingSpace_toLowerCase. exact L.
  - rewrite trailingSpace_toLowerCase. exact T.
  - apply plainSpaces_toLowerCase. exact P.
  - apply singleSpaced_toLowerCase. exact S.
Qed.

(** ** The parsers, further *)

Ltac step_bind E :=
  repeat match type of E with
         | bind ?m _ = Ok _ =>
             let X := fresh "X" in
             destruct m eqn:X; simpl in E; [| discriminate E]
         end.

Lemma structuredText_finish (Dom : Type)
  (importCheerio : Res (ModuleNamespace Dom)) (html t : jsString) :
  structuredText importCheerio html = Ok t ->
  exists txt, t = toLowerCase (trim (replaceAll spaceMatchAt (js " ") txt)).
Proof.
  unfold structuredText. intros E. step_bind E.
  inversion E. eauto.
Qed.

Lemma extractTextContent_finish (Dom : Type)
  (importCheerio : Res (ModuleNamespace Dom)) (html t : jsString) :
  extractTextContent importCheerio html = Ok t ->
  exists txt, t = toLowerCase (trim (replaceAll spaceMatchAt (js " ") txt)).
Proof.
  rewrite extractTextContent_value. intros H. inversion H.
  destruct (structuredText importCheerio html) as [t' | e] eqn:E.
  - apply (structuredText_finish _ _ E).
  - unfold fallbackText. eauto.
Qed.

Lemma extractMetaTags_title (Dom : Type)
  (importCheerio : Res (ModuleNamespace Dom)) (html : jsString)
  (m : MetaTags.t) :
  extractMetaTags importCheerio html = Ok m ->
  leadingSpace (MetaTags.title m) = 0 /\
  trailingSpace (MetaTags.title m) = 0.
Proof.
  unfold extractMetaTags, tryCatch.
  match goal with
  | |- context [match ?b with _ => _ end] => destruct b as [m' | e] eqn:E
  end; intros H; inversion H; subst; [| split; reflexivity].
  step_bind E. inversion E; subst; simpl. apply trim_edges.
Qed.

(** X1.  Whatever the import of cheerio and its calls do,
    [extractTextContent] returns a text in normal form: lowercase, without
    whitespace at its start or at its end, and where every whitespace is a
    single plain space. *)
Theorem extractTextContent_normalText
  (Dom : Type) (importCheerio : Res (ModuleNamespace Dom)) (html : jsString) :
  exists txt,
    extractTextContent importCheerio html = Ok txt /\ normalText txt.
Proof.
  rewrite extractTextContent_value. eexists. split; [reflexivity |].
  destruct (structuredText importCheerio html) as [t | e] eqn:E.
  - destruct (structuredText_finish _ _ E) as [txt ->].
    apply finish_normalText.
  - apply finish_normalText.
Qed.

(** X2.  Whatever the import of cheerio and its calls do,
    [extractMetaTags] returns and does not throw; the title it returns has
    no whitespace at its start or at its end; and when the import fails or
    no usable module object is found, the three fields are empty. *)
Theorem extractMetaTags_never_raises
  (Dom : Type) (importCheerio : Res (ModuleNamespace Dom)) (html : jsString) :
  exists m,
    extractMetaTags importCheerio html = Ok m /\
    leadingSpace (MetaTags.title m) = 0 /\
    trailingSpace (MetaTags.title m) = 0 /\
    (forall e, importCheerio = Throw e -> m = emptyMetaTags) /\
    (forall cheerio e,
        importCheerio = Ok cheerio -> selectModule cheerio = Throw e ->
        m = emptyMetaTags).
Proof.
  unfold extractMetaTags, tryCatch.
  match goal with
  | |- context [match ?b with _ => _ end] => destruct b as [m | e] eqn:E
  end.
  - exists m. split; [reflexivity |].
    step_bind E. inversion E; subst; simpl.
    split; [apply trim_edges |]. split; [apply trim_edges |].
    split; [intros e H; discriminate |].
    intros c e H S. inversion H; subst. congruence.
  - exists emptyMetaTags. repeat split.
Qed.

(** ** The keyword scorer, further *)

Lemma hasWord_words (found : list StopWordMatch.t) (x : jsString) :
  hasWord found x = existsb (fun y => eqbStr y x) (words found).
Proof.
  unfold hasWord, words. induction found as [|item found IH]; simpl;
    [reflexivity | rewrite IH; reflexivity].
Qed.

Lemma forEachStopWord_order
  (regExpMeta : jsString -> jsString -> Res nat)
  (text : jsString) (stopWords : list jsString) :
  forall found found',
    forEachStopWord regExpMeta text (toLowerCase text) stopWords found
    = Ok found' ->
    words found' = appendNew (words found) (matchingWords text stopWords).
Proof.
  unfold appendNew, matchingWords.
  induction stopWords as [|word rest IH]; intros found found' H.
  - simpl in H. inversion H. reflexivity.
  - simpl in H. fold (normalize word) in H. cbn [map filter].
    destruct (truthy (normalize word)
              && includes (toLowerCase text) (normalize word))%bool.
    + destruct (matchCount regExpMeta (normalize word) text)
        as [count | e]; simpl in H; [| discriminate].
      rewrite (IH _ _ H). cbn [fold_left]. f_equal.
      rewrite <- hasWord_words.
      destruct (hasWord found (normalize word)); [reflexivity |].
      rewrite words_app. reflexivity.
    + apply (IH _ _ H).
Qed.

Lemma includes_empty_text (x : jsString) :
  truthy x = true -> includes [] x = false.
Proof. destruct x; [discriminate | reflexivity]. Qed.

Lemma matchingWords_empty_text (stopWords : list jsString) :
  matchingWords [] stopWords = [].
Proof.
  unfold matchingWords. induction stopWords as [|w l IH]; [reflexivity |].
  cbn [map filter]. rewrite IH.
  destruct (truthy (normalize w)) eqn:T; [| reflexivity].
  cbn [toLowerCase map]. rewrite (includes_empty_text _ T). reflexivity.
Qed.

(** X3.  The words a result lists are the normalised stop words that occur
    in the text, each once, in the order in which the stop-word list first
    names them. *)
Theorem checkStopWords_order
  (regExpMeta : jsString -> jsString -> Res nat)
  (text : jsString) (stopWords : list jsString) (r : ScoreResult.t) :
  checkStopWords regExpMeta text stopWords = Ok r ->
  words (ScoreResult.found r)
  = firstOccurrences (matchingWords text stopWords).
Proof.
  intros E. apply checkStopWords_result in E.
  destruct E as [[-> [-> | ->]] | [_ [_ [F _]]]].
  - rewrite matchingWords_empty_text. reflexivity.
  - reflexivity.
  - apply (forEachStopWord_order _ _ _ _ F).
Qed.

(** *** Counts of literal stop words *)

Lemma startsWithCI_lowered (w : jsString) :
  lowered w ->
  forall s, startsWithCI w s = startsWith w (toLowerCase s).
Proof.
  induction 1 as [|x w Hx _ IH]; intros s; [reflexivity |].
  destruct s as [|y s]; [reflexivity |].
  simpl. rewrite Hx, IH. reflexivity.
Qed.

Lemma startsWithCI_length (w : jsString) :
  forall s, startsWithCI w s = true -> length w <= length s.
Proof.
  induction w as [|x w IH]; intros s H; simpl; [lia |].
  destruct s as [|y s]; [discriminate |].
  simpl in H. apply andb_true_iff in H. destruct H as [_ H].
  apply IH in H. simpl. lia.
Qed.

Lemma countLoop_bound (w : jsString) :
  forall s skip, countLoop w s skip * length w <= length s - skip.
Proof.
  induction s as [|c s IH]; intros skip; [simpl; lia |].
  cbn [countLoop]. destruct skip as [|k].
  - destruct (startsWithCI w (c :: s)) eqn:M.
    + apply startsWithCI_length in M.
      specialize (IH (length w - 1)). simpl in *.
      set (x := countLoop w s (length w - 1) * length w) in *. lia.
    + specialize (IH 0). simpl. lia.
  - specialize (IH k). simpl. lia.
Qed.

Lemma forEachStopWord_counts
  (regExpMeta : jsString -> jsString -> Res nat)
  (text : jsString) (stopWords : list jsString)
  (P : StopWordMatch.t -> Prop) :
  (forall w, In w stopWords ->
             truthy (normalize w) = true ->
             includes (toLowerCase text) (normalize w) = true ->
             forall count,
               matchCount regExpMeta (normalize w) text = Ok count ->
               P (StopWordMatch.mk (normalize w) count)) ->
  forall found found',
    forEachStopWord regExpMeta text (toLowerCase text) stopWords found
    = Ok found' ->
    Forall P found -> Forall P found'.
Proof.
  induction stopWords as [|word rest IH]; intros Hp found found' H F.
  - simpl in H. inversion H; subst. exact F.
  - simpl in H. fold (normalize word) in H.
    assert (Hrest : forall w, In w rest ->
              truthy (normalize w) = true ->
              includes (toLowerCase text) (normalize w) = true ->
              forall count,
                matchCount regExpMeta (normalize w) text = Ok count ->
                P (StopWordMatch.mk (normalize w) count)).
    { intros w Hw. apply Hp. right. exact Hw. }
    destruct (truthy (normalize word)
              && includes (toLowerCase text) (normalize word))%bool eqn:T.
    + apply andb_true_iff in T. destruct T as [T1 T2].
      destruct (matchCount regExpMeta (normalize word) text)
        as [count | e] eqn:M; simpl in H; [| discriminate].
      apply (IH Hrest _ _ H).
      destruct (hasWord found (normalize word)); [exact F |].
      apply Forall_app. split; [exact F |]. constructor; [| constructor].
      apply (Hp word); simpl; auto.
    + apply (IH Hrest _ _ H F).
Qed.

(** X4.  On a stop-word list without metacharacters the scorer returns,
    and every match it lists has the number of matches of its word in the
    text, counted from left to right without overlap: never more than fit
    in the text. *)
Theorem checkStopWords_literal_counts
  (regExpMeta : jsString -> jsString -> Res nat)
  (text : jsString) (stopWords : list jsString) :
  Forall (fun w => isLiteralPattern (normalize w) = true) stopWords ->
  exists r,
    checkStopWords regExpMeta text stopWords = Ok r /\
    Forall (fun item =>
              StopWordMatch.count item
              = countLiteral (StopWordMatch.word item) text /\
              StopWordMatch.count item * length (StopWordMatch.word item)
              <= length text)
      (ScoreResult.found r).
Proof.
  intros L. destruct (checkStopWords_returns regExpMeta text L) as [r E].
  exists r. split; [exact E |].
  apply checkStopWords_result in E.
  destruct E as [[-> _] | [_ [_ [F _]]]]; [constructor |].
  eapply forEachStopWord_counts; [| exact F | constructor].
  intros w Hw T I count M. rewrite Forall_forall in L.
  rewrite (matchCount_literal _ _ _ (L w Hw)) in M. inversion M; subst.
  cbn [StopWordMatch.count StopWordMatch.word]. split; [reflexivity |].
  unfold countLiteral.
  pose proof (countLoop_bound (normalize w) text 0). lia.
Qed.

(** X5.  Only the normalised form of a stop word matters: the scorer
    gives the same answer on the list of the lowercased and trimmed stop
    words as on the list itself. *)
Theorem checkStopWords_normalized_list
  (regExpMeta : jsString -> jsString -> Res nat)
  (text : jsString) (stopWords : list jsString) :
  checkStopWords regExpMeta text (map normalize stopWords)
  = checkStopWords regExpMeta text stopWords.
Proof.
  unfold checkStopWords. rewrite length_map.
  destruct (negb (truthy text) || (length stopWords =? 0))%bool;
    [reflexivity |].
  assert (E : forall found,
             forEachStopWord regExpMeta text (toLowerCase text)
               (map normalize stopWords) found
             = forEachStopWord regExpMeta text (toLowerCase text)
                 stopWords found).
  { induction stopWords as [|w l IH]; intros found; [reflexivity |].
    cbn [map forEachStopWord].
    change (trim (toLowerCase (normalize w))) with (normalize (normalize w)).
    change (trim (toLowerCase w)) with (normalize w).
    rewrite normalize_idempotent.
    destruct (truthy (normalize w)
              && includes (toLowerCase text) (normalize w))%bool;
      [| apply IH].
    destruct (matchCount regExpMeta (normalize w) text); simpl;
      [apply IH | reflexivity]. }
  rewrite E. reflexivity.
Qed.

(** *** Case of the text *)

Lemma toLowerCase_idempotent (s : jsString) :
  toLowerCase (toLowerCase s) = toLowerCase s.
Proof. apply lowered_fixed. apply lowered_toLowerCase. Qed.


Lemma matchingWords_toLowerCase (text : jsString)
  (stopWords : list jsString) :
  matchingWords (toLowerCase text) stopWords = matchingWords text stopWords.
Proof.
  unfold matchingWords. rewrite toLowerCase_idempotent. reflexivity.
Qed.

(** The words of a result, from the stop words that occur in the text. *)
Lemma checkStopWords_words
  (regExpMeta : jsString -> jsString -> Res nat)
  (text : jsString) (stopWords : list jsString) (r : ScoreResult.t) :
  checkStopWords regExpMeta text stopWords = Ok r ->
  words (ScoreResult.found r)
  = firstOccurrences (matchingWords text stopWords) /\
  ScoreResult.count r = length (words (ScoreResult.found r)).
Proof.
  intros E. apply checkStopWords_result in E.
  destruct E as [[-> [-> | ->]] | [_ [_ [F [C _]]]]].
  - rewrite matchingWords_empty_text. split; reflexivity.
  - split; reflexivity.
  - split; [apply (forEachStopWord_order _ _ _ _ F) |].
    unfold words. rewrite length_map. exact C.
Qed.

(** X6.  The case of the text does not change which stop words are
    found: when the scorer returns on the lowercased text and on the text,
    the two results list the same words, in the same order, and have the
    same count. *)
Theorem checkStopWords_text_case
  (regExpMeta : jsString -> jsString -> Res nat)
  (text : jsString) (stopWords : list jsString) (r r' : ScoreResult.t) :
  checkStopWords regExpMeta (toLowerCase text) stopWords = Ok r ->
  checkStopWords regExpMeta text stopWords = Ok r' ->
  words (ScoreResult.found r) = words (ScoreResult.found r') /\
  ScoreResult.count r = ScoreResult.count r'.
Proof.
  intros E E'.
  apply checkStopWords_words in E. apply checkStopWords_words in E'.
  destruct E as [W C]. destruct E' as [W' C'].
  rewrite matchingWords_toLowerCase in W.
  rewrite C, C', W, W'. split; reflexivity.
Qed.

(** ** The analysis of a page, further *)

Lemma checkStopWords_score_bounds
  (regExpMeta : jsString -> jsString -> Res nat)
  (text : jsString) (stopWords : list jsString) (r : ScoreResult.t) :
  checkStopWords regExpMeta text stopWords = Ok r ->
  (0 <= ScoreResult.score r)%Q /\ (ScoreResult.score r <= 100)%Q.
Proof.
  intros E. apply checkStopWords_result in E.
  destruct E as [[-> _] | [_ [_ [_ [_ S]]]]].
  - split; discriminate.
  - rewrite S. apply round2_bounds; apply rawScore_bounds.
Qed.

(** The parts of an analysis. *)
Lemma analyzeHtmlForSpam_result
  (Dom : Type) (importCheerio : Res (ModuleNamespace Dom))
  (regExpMeta : jsString -> jsString -> Res nat)
  (html : jsString) (stopWords : list jsString) (a : HtmlAnalysis.t) :
  analyzeHtmlForSpam importCheerio regExpMeta html stopWords = Ok a ->
  exists textContent,
    extractTextContent importCheerio html = Ok textContent /\
    extractMetaTags importCheerio html = Ok (HtmlAnalysis.metaTags a) /\
    checkStopWords regExpMeta
      (allTextOf textContent (HtmlAnalysis.metaTags a)) stopWords
    = Ok (HtmlAnalysis.stopWords a) /\
    HtmlAnalysis.textLength a = length textContent /\
    HtmlAnalysis.spamScore a = ScoreResult.score (HtmlAnalysis.stopWords a) /\
    HtmlAnalysis.isSpam a
    = (0 <? length (ScoreResult.found (HtmlAnalysis.stopWords a))).
Proof.
  unfold analyzeHtmlForSpam. intros E.
  destruct (extractTextContent importCheerio html) as [t | e] eqn:T;
    cbn [bind] in E; [| discriminate].
  destruct (extractMetaTags importCheerio html) as [m | e] eqn:M;
    cbn [bind] in E; [| discriminate].
  fold (allTextOf t m) in E.
  destruct (checkStopWords regExpMeta (allTextOf t m) stopWords)
    as [r | e] eqn:C; cbn [bind] in E; [| discriminate].
  inversion E; subst; simpl. exists t. repeat split; auto.
  assert (N : ScoreResult.count r = length (ScoreResult.found r)).
  { apply checkStopWords_result in C.
    destruct C as [[-> _] | [_ [_ [_ [C _]]]]]; [reflexivity | exact C]. }
  rewrite <- N.
  destruct (0 <? ScoreResult.count r) eqn:P; [reflexivity |]. simpl.
  apply Nat.ltb_ge in P.
  assert (Z : ScoreResult.count r = 0) by lia.
  apply (checkStopWords_no_match _ _ _ C) in Z.
  unfold gtQ. apply negb_false_iff. apply Qle_bool_iff. rewrite Z.
  discriminate.
Qed.

(** X7.  In every analysis [analyzeHtmlForSpam] returns, the page is
    flagged spam exactly when at least one stop word was found; the spam
    score is the score of the stop-word check and lies between 0 and 100;
    and a page that is not flagged has no match and a spam score of 0. *)
Theorem analyzeHtmlForSpam_flag
  (Dom : Type) (importCheerio : Res (ModuleNamespace Dom))
  (regExpMeta : jsString -> jsString -> Res nat)
  (html : jsString) (stopWords : list jsString) (a : HtmlAnalysis.t) :
  analyzeHtmlForSpam importCheerio regExpMeta html stopWords = Ok a ->
  (HtmlAnalysis.isSpam a = true
   <-> ScoreResult.found (HtmlAnalysis.stopWords a) <> []) /\
  HtmlAnalysis.spamScore a = ScoreResult.score (HtmlAnalysis.stopWords a) /\
  (0 <= HtmlAnalysis.spamScore a)%Q /\
  (HtmlAnalysis.spamScore a <= 100)%Q /\
  (HtmlAnalysis.isSpam a = false ->
   ScoreResult.found (HtmlAnalysis.stopWords a) = [] /\
   ScoreResult.count (HtmlAnalysis.stopWords a) = 0 /\
   (HtmlAnalysis.spamScore a == 0)%Q).
Proof.
  intros E. destruct (analyzeHtmlForSpam_result _ _ _ _ E)
    as [t [_ [_ [C [_ [S F]]]]]].
  destruct (checkStopWords_score_bounds _ _ _ C) as [B0 B100].
  assert (N : ScoreResult.count (HtmlAnalysis.stopWords a)
              = length (ScoreResult.found (HtmlAnalysis.stopWords a))).
  { pose proof C as C'. apply checkStopWords_result in C'.
    destruct C' as [[-> _] | [_ [_ [_ [C' _]]]]]; [reflexivity | exact C']. }
  rewrite S, F. split; [| split; [reflexivity | split; [exact B0 |
    split; [exact B100 |]]]].
  - rewrite Nat.ltb_lt.
    destruct (ScoreResult.found (HtmlAnalysis.stopWords a)); simpl;
      split; intros; try congruence; lia.
  - intros Z. apply Nat.ltb_ge in Z.
    assert (L : length (ScoreResult.found (HtmlAnalysis.stopWords a)) = 0)
      by lia.
    split; [apply length_zero_iff_nil; exact L |].
    split; [lia |].
    apply (checkStopWords_no_match _ _ _ C). lia.
Qed.

(** *** The text that is scored *)

(** The score is a ratio rounded to two decimals: it is within a hundredth
    of the ratio. *)
Lemma checkStopWords_score_close
  (regExpMeta : jsString -> jsString -> Res nat)
  (text : jsString) (stopWords : list jsString) (r : ScoreResult.t) :
  checkStopWords regExpMeta text stopWords = Ok r ->
  text <> [] -> stopWords <> [] ->
  within (1 # 100) (ScoreResult.score r)
    (Qmin 100
       (ofNat (foundWordsCount (ScoreResult.found r))
        / ofNat (tokenCount text + leadingSpace text + trailingSpace text)
        * 100))%Q.
Proof.
  intros E Nt Ns. apply checkStopWords_result in E.
  destruct E as [[_ [C | C]] | [_ [_ [_ [_ S]]]]]; try congruence.
  rewrite S, (splitWhitespace_length Nt). unfold rawScore.
  pose proof (splitWhitespace_nonempty text) as P.
  rewrite (splitWhitespace_length Nt) in P.
  destruct (Nat.ltb_spec 0
              (tokenCount text + leadingSpace text + trailingSpace text));
    [apply round2_within | lia].
Qed.

Lemma checkStopWords_score_close_trimmed
  (regExpMeta : jsString -> jsString -> Res nat)
  (text : jsString) (stopWords : list jsString) (r : ScoreResult.t) :
  checkStopWords regExpMeta text stopWords = Ok r ->
  text <> [] -> stopWords <> [] ->
  leadingSpace text = 0 -> trailingSpace text = 0 ->
  within (1 # 100) (ScoreResult.score r)
    (specRatio text (ScoreResult.found r)).
Proof.
  intros E Nt Ns L T.
  pose proof (@checkStopWords_score_close regExpMeta text stopWords r E Nt
                Ns) as W.
  rewrite L, T, !Nat.add_0_r in W. unfold specRatio.
  pose proof (tokenCount_positive Nt L) as P.
  destruct (Nat.eqb_spec (tokenCount text) 0); [lia | exact W].
Qed.

Lemma join_edges (parts : list jsString) :
  Forall (fun p => p <> [] /\ leadingSpace p = 0 /\ trailingSpace p = 0)
    parts ->
  leadingSpace (join (js " ") parts) = 0 /\
  trailingSpace (join (js " ") parts) = 0.
Proof.
  induction 1 as [|p parts [N [L T]] F [IL IT]]; [split; reflexivity |].
  destruct parts as [|q parts]; [simpl; auto |].
  change (join (js " ") (p :: q :: parts))
    with (p ++ js " " ++ join (js " ") (q :: parts)).
  split.
  - destruct p; [congruence | exact L].
  - rewrite trailingSpace_rev in *. rewrite !rev_app_distr.
    destruct (rev (join (js " ") (q :: parts))) as [|c r] eqn:R.
    + exfalso. apply (f_equal (@rev ascii)) in R.
      rewrite rev_involutive in R. simpl in R.
      inversion F as [|? ? [Nq _] _]; subst.
      destruct q as [|d q]; [congruence |].
      destruct parts; discriminate R.
    + exact IT.
Qed.

(** X8.  When the description and the keywords of the page have no
    whitespace at their start or at their end, the text that is scored has
    none either, and the spam score of the analysis is within 0.01 of the
    ratio of the specification: the occurrences found, over the number of
    tokens of that text, as a percentage capped at 100. *)
Theorem analyzeHtmlForSpam_score
  (Dom : Type) (importCheerio : Res (ModuleNamespace Dom))
  (regExpMeta : jsString -> jsString -> Res nat)
  (html : jsString) (stopWords : list jsString) (a : HtmlAnalysis.t) :
  analyzeHtmlForSpam importCheerio regExpMeta html stopWords = Ok a ->
  stopWords <> [] ->
  leadingSpace (MetaTags.description (HtmlAnalysis.metaTags a)) = 0 ->
  trailingSpace (MetaTags.description (HtmlAnalysis.metaTags a)) = 0 ->
  leadingSpace (MetaTags.keywords (HtmlAnalysis.metaTags a)) = 0 ->
  trailingSpace (MetaTags.keywords (HtmlAnalysis.metaTags a)) = 0 ->
  exists textContent,
    extractTextContent importCheerio html = Ok textContent /\
    let allText := allTextOf textContent (HtmlAnalysis.metaTags a) in
    leadingSpace allText = 0 /\ trailingSpace allText = 0 /\
    (allText <> [] ->
     within (1 # 100) (HtmlAnalysis.spamScore a)
       (specRatio allText (ScoreResult.found (HtmlAnalysis.stopWords a)))).
Proof.
  intros E Ns Ld Td Lk Tk.
  destruct (analyzeHtmlForSpam_result _ _ _ _ E)
    as [t [X [M [C [_ [S _]]]]]].
  exists t. split; [exact X |].
  destruct (extractTextContent_finish _ _ X) as [txt Ft].
  destruct (finish_normalText txt) as [_ [Lt [Tt _]]]. rewrite <- Ft in Lt, Tt.
  destruct (extractMetaTags_title _ _ M) as [Lm Tm].
  assert (Edges : leadingSpace (allTextOf t (HtmlAnalysis.metaTags a)) = 0 /\
                  trailingSpace (allTextOf t (HtmlAnalysis.metaTags a)) = 0).
  { unfold allTextOf. apply join_edges.
    apply Forall_forall. intros p Hp. apply filter_In in Hp.
    destruct Hp as [Hin Hp]. apply truthy_nonempty in Hp.
    split; [exact Hp |].
    simpl in Hin.
    destruct Hin as [<- | [<- | [<- | [<- | []]]]]; auto. }
  destruct Edges as [L T]. simpl. split; [exact L |]. split; [exact T |].
  intros N. rewrite S.
  eapply checkStopWords_score_close_trimmed; eassumption.
Qed.

(** X9.  The score of every result on a text that is not empty and a list
    that is not empty is within 0.01 of this ratio: the occurrences found,
    over the number of tokens of the text plus one for whitespace at its
    start and one for whitespace at its end, as a percentage capped at
    100; on a text without whitespace at either end the divisor is the
    number of tokens, as in the specification. *)
Theorem checkStopWords_score_formula
  (regExpMeta : jsString -> jsString -> Res nat)
  (text : jsString) (stopWords : list jsString) (r : ScoreResult.t) :
  checkStopWords regExpMeta text stopWords = Ok r ->
  text <> [] -> stopWords <> [] ->
  within (1 # 100) (ScoreResult.score r)
    (Qmin 100
       (ofNat (list_sum (map StopWordMatch.count (ScoreResult.found r)))
        / ofNat (tokenCount text + leadingSpace text + trailingSpace text)
        * 100))%Q /\
  (leadingSpace text = 0 -> trailingSpace text = 0 ->
   within (1 # 100) (ScoreResult.score r)
     (specRatio text (ScoreResult.found r))).
Proof.
  intros E Nt Ns. split.
  - rewrite <- foundWordsCount_sum.
    apply (@checkStopWords_score_close regExpMeta text stopWords r E Nt Ns).
  - intros L T. eapply checkStopWords_score_close_trimmed; eassumption.
Qed.

(** ** The domain analyzer, further *)

Section LoopFurther.

Variable Dom : Type.
Variable importCheerio : Res (ModuleNamespace Dom).
Variable regExpMeta : jsString -> jsString -> Res nat.
Variable client : WaybackClient.
Variable stopWords : list jsString.

Local Abbreviation turn' := (turn importCheerio regExpMeta client stopWords).
Local Abbreviation analysisOf' :=
  (analysisOf importCheerio regExpMeta client stopWords).
Local Abbreviation spamAnalyses' :=
  (spamAnalyses importCheerio regExpMeta client stopWords).
Local Abbreviation spamFound' :=
  (spamFound importCheerio regExpMeta client stopWords).
Local Abbreviation flagged' :=
  (flagged importCheerio regExpMeta client stopWords).
Local Abbreviation flaggedSnapshots' :=
  (flaggedSnapshots importCheerio regExpMeta client stopWords).

Lemma analysisOf_analyzed (snapshot : Snapshot.t) (a : HtmlAnalysis.t) :
  analysisOf' snapshot = Some a ->
  exists h,
    getSnapshotHtml client snapshot = Ok h /\
    analyzeHtmlForSpam importCheerio regExpMeta (HtmlResult.html h) stopWords
    = Ok a.
Proof.
  unfold analysisOf, bind.
  destruct (getSnapshotHtml client snapshot) as [h | e]; [| discriminate].
  destruct (analyzeHtmlForSpam importCheerio regExpMeta (HtmlResult.html h)
              stopWords) as [a' | e] eqn:E; [| discriminate].
  intros H. inversion H; subst. eauto.
Qed.

(** What holds of every analysis the loop takes into account. *)
Lemma spamAnalyses_Forall (P : HtmlAnalysis.t -> Prop) :
  (forall html a,
      analyzeHtmlForSpam importCheerio regExpMeta html stopWords = Ok a ->
      HtmlAnalysis.isSpam a = true -> P a) ->
  forall snapshots, Forall P (spamAnalyses' snapshots).
Proof.
  intros Hp. induction snapshots as [|s rest IH]; simpl; [constructor |].
  destruct (analysisOf' s) as [a |] eqn:A; [| exact IH].
  destruct (HtmlAnalysis.isSpam a) eqn:F; [| exact IH].
  constructor; [| exact IH].
  destruct (analysisOf_analyzed _ A) as [h [_ E]]. apply (Hp _ _ E F).
Qed.

Lemma spamAnalyses_flagged (snapshots : list Snapshot.t) :
  length (spamAnalyses' snapshots) = length (flaggedSnapshots' snapshots).
Proof.
  unfold flaggedSnapshots, flagged.
  induction snapshots as [|s rest IH]; simpl; [reflexivity |].
  destruct (analysisOf' s) as [a |]; [| exact IH].
  destruct (HtmlAnalysis.isSpam a); simpl; congruence.
Qed.

Lemma spamAnalyses_length (snapshots : list Snapshot.t) :
  length (spamAnalyses' snapshots) <= length snapshots.
Proof.
  induction snapshots as [|s rest IH]; simpl; [lia |].
  destruct (analysisOf' s) as [a |]; [| lia].
  destruct (HtmlAnalysis.isSpam a); simpl; lia.
Qed.

Lemma spamAnalyses_none (snapshots : list Snapshot.t) :
  Forall (fun s => flagged' s = false) snapshots ->
  spamAnalyses' snapshots = [].
Proof.
  unfold flagged. induction 1 as [|s rest H _ IH]; simpl; [reflexivity |].
  destruct (analysisOf' s) as [a |]; [| exact IH].
  rewrite H. exact IH.
Qed.

Lemma fold_firstSpamDate_null (snapshots : list Snapshot.t) :
  forall st,
    firstSpamDate (fold_left turn' snapshots st) = None
    <-> firstSpamDate st = None /\ spamAnalyses' snapshots = [].
Proof.
  induction snapshots as [|s rest IH]; intros st; simpl; [tauto |].
  rewrite IH. unfold turn, record.
  destruct (analysisOf' s) as [a |]; [| tauto].
  destruct (HtmlAnalysis.isSpam a); [| tauto]. simpl.
  destruct (unset (firstSpamDate st)) eqn:U.
  - split; [intros [H _]; discriminate | intros [_ H]; discriminate].
  - split; [intros [H _] | intros [_ H]; discriminate].
    rewrite H in U. discriminate.
Qed.

(** With timestamps that are not empty, the date kept is the timestamp of
    the first snapshot flagged. *)
Lemma fold_firstSpamDate (snapshots : list Snapshot.t) :
  Forall (fun s => Snapshot.timestamp s <> []) snapshots ->
  forall st,
    firstSpamDate st <> Some [] ->
    firstSpamDate (fold_left turn' snapshots st)
    = match firstSpamDate st with
      | Some d => Some d
      | None =>
          option_map Snapshot.timestamp (hd_error (flaggedSnapshots' snapshots))
      end.
Proof.
  unfold flaggedSnapshots, flagged.
  induction 1 as [|s rest Ts _ IH]; intros st G; simpl.
  - destruct (firstSpamDate st); reflexivity.
  - unfold turn at 2. destruct (analysisOf' s) as [a |]; [| apply IH; exact G].
    unfold record. destruct (HtmlAnalysis.isSpam a); [| apply IH; exact G].
    rewrite IH; simpl.
    + destruct (firstSpamDate st) as [[|c d] |]; simpl;
        [exfalso; apply G; reflexivity | reflexivity | reflexivity].
    + destruct (firstSpamDate st) as [[|c d] |]; simpl;
        [exfalso; apply G; reflexivity | discriminate |].
      intros H. inversion H. congruence.
Qed.

Lemma trackAll_empty (founds : list (list StopWordMatch.t)) :
  trackAll founds [] = [] <-> Forall (fun f => f = []) founds.
Proof.
  split.
  - intros E. apply Forall_forall. intros f Hf.
    destruct f as [|item f]; [reflexivity |]. exfalso.
    pose proof (trackAll_get founds (StopWordMatch.word item) []) as G.
    rewrite E in G. simpl in G.
    assert (X : existsb (fun f0 => hasWord f0 (StopWordMatch.word item))
                  founds = true).
    { apply existsb_hasWord. exists (item :: f). split; [exact Hf |].
      simpl. auto. }
    rewrite X in G. discriminate.
  - intros F. unfold trackAll.
    induction F as [|f founds -> _ IH]; [reflexivity | exact IH].
Qed.

Lemma sumQ_bounds (l : list Q) :
  Forall (fun q => 0 <= q /\ q <= 100)%Q l ->
  (0 <= sumQ l)%Q /\ (sumQ l <= 100 * ofNat (length l))%Q.
Proof.
  induction 1 as [|q l [H0 H1] _ [I0 I1]]; simpl.
  - split; [apply Qle_refl | unfold ofNat; simpl; discriminate].
  - split.
    + rewrite <- (Qplus_0_r 0). apply Qplus_le_compat; assumption.
    + assert (E : (100 * ofNat (S (length l))
                   == 100 + 100 * ofNat (length l))%Q).
      { unfold ofNat. rewrite Nat2Z.inj_succ. unfold Qeq, Qmult, Qplus.
        cbn [Qnum Qden inject_Z]. lia. }
      rewrite E. apply Qplus_le_compat; assumption.
Qed.

End LoopFurther.

Section DomainFurther.

Variable Dom : Type.
Variable importCheerio : Res (ModuleNamespace Dom).
Variable regExpMeta : jsString -> jsString -> Res nat.
Variable client : WaybackClient.
Variable stopWords : list jsString.

Local Abbreviation turn' := (turn importCheerio regExpMeta client stopWords).
Local Abbreviation spamAnalyses' :=
  (spamAnalyses importCheerio regExpMeta client stopWords).
Local Abbreviation spamFound' :=
  (spamFound importCheerio regExpMeta client stopWords).
Local Abbreviation flagged' :=
  (flagged importCheerio regExpMeta client stopWords).

Lemma spamFound_nonempty (snapshots : list Snapshot.t) :
  Forall (fun f => f <> []) (spamFound' snapshots).
Proof.
  unfold spamFound. apply Forall_map.
  apply spamAnalyses_Forall. intros html a E F.
  destruct (analyzeHtmlForSpam_result _ _ _ _ E) as [t [_ [_ [_ [_ [_ S]]]]]].
  rewrite S in F. apply Nat.ltb_lt in F.
  destruct (ScoreResult.found (HtmlAnalysis.stopWords a));
    [simpl in F; lia | discriminate].
Qed.

Lemma spamScores_bounds (snapshots : list Snapshot.t) :
  Forall (fun q => 0 <= q /\ q <= 100)%Q
    (map HtmlAnalysis.spamScore (spamAnalyses' snapshots)).
Proof.
  apply Forall_map. apply spamAnalyses_Forall. intros html a E _.
  destruct (analyzeHtmlForSpam_result _ _ _ _ E) as [t [_ [_ [C [_ [S _]]]]]].
  rewrite S. eapply checkStopWords_score_bounds. exact C.
Qed.

(** The map is empty exactly when no snapshot was flagged. *)
Lemma allFound_empty (snapshots : list Snapshot.t) :
  allFoundStopWords (fold_left turn' snapshots initialState) = []
  <-> spamAnalyses' snapshots = [].
Proof.
  rewrite fold_allFoundStopWords. simpl. rewrite trackAll_empty.
  pose proof (spamFound_nonempty snapshots) as N. unfold spamFound in *.
  destruct (spamAnalyses' snapshots) as [|a l]; simpl in *.
  - split; [reflexivity | constructor].
  - split; [| discriminate]. intros F.
    inversion F; subst. inversion N; subst. congruence.
Qed.

Lemma sortByCountDesc_nil (l : list StopWordMatch.t) :
  sortByCountDesc l = [] <-> l = [].
Proof.
  pose proof (Permutation_length (sortByCountDesc_perm l)) as P.
  split; intros H.
  - rewrite H in P. destruct l; [reflexivity | discriminate].
  - rewrite H. reflexivity.
Qed.

Lemma entries_nil (m : WordMap) : entries m = [] <-> m = [].
Proof. destruct m; simpl; split; congruence. Qed.

End DomainFurther.

(** X10.  The fields of an analysis agree with one another: the number of
    spam snapshots is the number of snapshots the loop flagged and is at
    most the number checked, and [spamDetected] is false, the status is
    [clean], [stopWordsFound] is empty and [firstSpamDate] is null, each
    exactly when that number is 0. *)
Theorem analyzeDomain_consistent
  (Dom : Type) (importCheerio : Res (ModuleNamespace Dom))
  (regExpMeta : jsString -> jsString -> Res nat) (client : WaybackClient)
  (domain : jsString) (stopWords : list jsString) (maxSnapshots : nat)
  (snapshots : list Snapshot.t) :
  getSnapshots client domain maxSnapshots = Ok snapshots ->
  snapshots <> [] ->
  exists a,
    analyzeDomainForSpam importCheerio regExpMeta client domain stopWords
      maxSnapshots = Ok (Analysed a) /\
    DomainAnalysis.spamSnapshots a
    = length (flaggedSnapshots importCheerio regExpMeta client stopWords
                snapshots) /\
    DomainAnalysis.spamSnapshots a <= DomainAnalysis.snapshotsChecked a /\
    (DomainAnalysis.spamDetected a = false
     <-> DomainAnalysis.spamSnapshots a = 0) /\
    (DomainAnalysis.status a = clean
     <-> DomainAnalysis.spamSnapshots a = 0) /\
    (DomainAnalysis.stopWordsFound a = []
     <-> DomainAnalysis.spamSnapshots a = 0) /\
    (DomainAnalysis.firstSpamDate a = None
     <-> DomainAnalysis.spamSnapshots a = 0).
Proof.
  intros G N. eexists. split.
  { apply (analyzeDomainForSpam_analysed _ _ _ _ _ _ G N). }
  assert (P : 0 < length snapshots).
  { destruct snapshots; [congruence | simpl; lia]. }
  pose proof (fold_spamSnapshots importCheerio regExpMeta client stopWords
                snapshots initialState) as K.
  simpl in K.
  pose proof (spamAnalyses_length importCheerio regExpMeta client stopWords
                snapshots) as B.
  pose proof (allFound_empty importCheerio regExpMeta client stopWords
                snapshots) as A.
  pose proof (fold_firstSpamDate_null importCheerio regExpMeta client
                stopWords snapshots initialState) as D.
  destruct (status_cases _ P (summarize_status domain
              (fold_left (turn importCheerio regExpMeta client stopWords)
                 snapshots initialState) P)) as [_ [_ S]].
  set (st := fold_left _ snapshots initialState) in *.
  unfold summarize in *.
  cbn [DomainAnalysis.spamSnapshots DomainAnalysis.snapshotsChecked
       DomainAnalysis.spamDetected DomainAnalysis.status
       DomainAnalysis.stopWordsFound DomainAnalysis.firstSpamDate] in *.
  assert (Z : spamSnapshots st = 0
              <-> spamAnalyses importCheerio regExpMeta client stopWords
                    snapshots = []).
  { rewrite K. apply length_zero_iff_nil. }
  split; [rewrite K; apply spamAnalyses_flagged |].
  split; [lia |]. split; [| split; [exact S | split]].
  - rewrite Nat.ltb_ge. lia.
  - rewrite sortByCountDesc_nil, entries_nil, A, Z. reflexivity.
  - rewrite D, Z. simpl. tauto.
Qed.

(** X11.  In every analysis, [spamPercentage] and [avgSpamScore] lie
    between 0 and 100. *)
Theorem analyzeDomain_bounds
  (Dom : Type) (importCheerio : Res (ModuleNamespace Dom))
  (regExpMeta : jsString -> jsString -> Res nat) (client : WaybackClient)
  (domain : jsString) (stopWords : list jsString) (maxSnapshots : nat)
  (snapshots : list Snapshot.t) :
  getSnapshots client domain maxSnapshots = Ok snapshots ->
  snapshots <> [] ->
  exists a,
    analyzeDomainForSpam importCheerio regExpMeta client domain stopWords
      maxSnapshots = Ok (Analysed a) /\
    (0 <= DomainAnalysis.spamPercentage a)%Q /\
    (DomainAnalysis.spamPercentage a <= 100)%Q /\
    (0 <= DomainAnalysis.avgSpamScore a)%Q /\
    (DomainAnalysis.avgSpamScore a <= 100)%Q.
Proof.
  intros G N. eexists. split.
  { apply (analyzeDomainForSpam_analysed _ _ _ _ _ _ G N). }
  assert (P : 0 < length snapshots).
  { destruct snapshots; [congruence | simpl; lia]. }
  pose proof (fold_spamSnapshots importCheerio regExpMeta client stopWords
                snapshots initialState) as K.
  simpl in K.
  pose proof (spamAnalyses_length importCheerio regExpMeta client stopWords
                snapshots) as B.
  pose proof (fold_totalSpamScore importCheerio regExpMeta client stopWords
                snapshots initialState) as T.
  simpl in T. rewrite Qplus_0_l in T.
  destruct (sumQ_bounds (spamScores_bounds importCheerio regExpMeta client
                           stopWords snapshots)) as [S0 S1].
  rewrite length_map, <- K, <- T in S1. rewrite <- T in S0.
  set (st := fold_left _ snapshots initialState) in *.
  unfold summarize.
  cbn [DomainAnalysis.spamPercentage DomainAnalysis.avgSpamScore].
  assert (Pct : (0 <= ofNat (spamSnapshots st) / ofNat (length snapshots)
                      * 100)%Q /\
                (ofNat (spamSnapshots st) / ofNat (length snapshots) * 100
                 <= 100)%Q).
  { rewrite (percentage_fraction (spamSnapshots st) P).
    unfold Qle. cbn [Qnum Qden]. rewrite (Zpos_of_nat P). lia. }
  assert (Avg : (0 <= (if 0 <? spamSnapshots st
                      then totalSpamScore st / ofNat (spamSnapshots st)
                      else 0))%Q /\
                ((if 0 <? spamSnapshots st
                  then totalSpamScore st / ofNat (spamSnapshots st)
                  else 0) <= 100)%Q).
  { destruct (Nat.ltb_spec 0 (spamSnapshots st)) as [Q | Q];
      [| split; discriminate].
    pose proof (ofNat_pos Q) as Pos. split.
    - apply Qle_shift_div_l; [exact Pos |]. rewrite Qmult_0_l. exact S0.
    - apply Qle_shift_div_r; [exact Pos | exact S1]. }
  destruct Pct as [P0 P1]. destruct Avg as [A0 A1].
  destruct (round2_bounds P0 P1). destruct (round2_bounds A0 A1). tauto.
Qed.

(** X12.  When no snapshot has an empty timestamp, [firstSpamDate] is the
    timestamp of the first snapshot of the list that was flagged spam,
    and null when none was. *)
Theorem analyzeDomain_firstSpamDate
  (Dom : Type) (importCheerio : Res (ModuleNamespace Dom))
  (regExpMeta : jsString -> jsString -> Res nat) (client : WaybackClient)
  (domain : jsString) (stopWords : list jsString) (maxSnapshots : nat)
  (snapshots : list Snapshot.t) :
  getSnapshots client domain maxSnapshots = Ok snapshots ->
  snapshots <> [] ->
  Forall (fun s => Snapshot.timestamp s <> []) snapshots ->
  exists a,
    analyzeDomainForSpam importCheerio regExpMeta client domain stopWords
      maxSnapshots = Ok (Analysed a) /\
    DomainAnalysis.firstSpamDate a
    = option_map Snapshot.timestamp
        (hd_error (flaggedSnapshots importCheerio regExpMeta client
                     stopWords snapshots)).
Proof.
  intros G N T. eexists. split.
  { apply (analyzeDomainForSpam_analysed _ _ _ _ _ _ G N). }
  unfold summarize. cbn [DomainAnalysis.firstSpamDate].
  rewrite (fold_firstSpamDate importCheerio regExpMeta client stopWords T);
    [reflexivity | discriminate].
Qed.

(** What the analysis is when the loop flags no snapshot. *)
Lemma analyzeDomain_nothing_flagged
  (Dom : Type) (importCheerio : Res (ModuleNamespace Dom))
  (regExpMeta : jsString -> jsString -> Res nat) (client : WaybackClient)
  (domain : jsString) (stopWords : list jsString) (maxSnapshots : nat)
  (snapshots : list Snapshot.t) :
  getSnapshots client domain maxSnapshots = Ok snapshots ->
  snapshots <> [] ->
  Forall (fun s => flagged importCheerio regExpMeta client stopWords s
                   = false) snapshots ->
  exists a,
    analyzeDomainForSpam importCheerio regExpMeta client domain stopWords
      maxSnapshots = Ok (Analysed a) /\
    DomainAnalysis.snapshotsChecked a = length snapshots /\
    DomainAnalysis.spamSnapshots a = 0 /\
    DomainAnalysis.spamDetected a = false /\
    DomainAnalysis.status a = clean /\
    DomainAnalysis.stopWordsFound a = [] /\
    DomainAnalysis.totalStopWordsFound a = 0 /\
    DomainAnalysis.firstSpamDate a = None /\
    (DomainAnalysis.spamPercentage a == 0)%Q /\
    (DomainAnalysis.avgSpamScore a == 0)%Q.
Proof.
  intros G N F. eexists. split.
  { apply (analyzeDomainForSpam_analysed _ _ _ _ _ _ G N). }
  assert (P : 0 < length snapshots).
  { destruct snapshots; [congruence | simpl; lia]. }
  apply spamAnalyses_none in F.
  pose proof (fold_spamSnapshots importCheerio regExpMeta client stopWords
                snapshots initialState) as K.
  rewrite F in K. simpl in K.
  pose proof (proj2 (allFound_empty importCheerio regExpMeta client stopWords
                       snapshots) F) as A.
  pose proof (proj2 (fold_firstSpamDate_null importCheerio regExpMeta client
                       stopWords snapshots initialState)
                (conj eq_refl F)) as D.
  pose proof (summarize_status domain
                (fold_left (turn importCheerio regExpMeta client stopWords)
                   snapshots initialState) P) as S.
  set (st := fold_left _ snapshots initialState) in *.
  rewrite K in S.
  destruct (Nat.leb_spec (length snapshots) (2 * 0)) as [C | _];
    [simpl in C; lia |].
  unfold summarize in *.
  cbn [DomainAnalysis.spamSnapshots DomainAnalysis.snapshotsChecked
       DomainAnalysis.spamDetected DomainAnalysis.status
       DomainAnalysis.stopWordsFound DomainAnalysis.firstSpamDate
       DomainAnalysis.totalStopWordsFound DomainAnalysis.spamPercentage
       DomainAnalysis.avgSpamScore] in *.
  rewrite K, A, D. simpl Nat.ltb. cbv iota.
  repeat split; try assumption.
  - rewrite (round2_proper (proj2 (percentage_zero_iff 0 P) eq_refl)).
    reflexivity.
Qed.

(** X13.  A snapshot whose page cannot be fetched, or whose analysis
    throws, is counted as checked and never as spam: when this happens to
    every snapshot of the list, the domain is reported [clean], with no
    spam detected and no stop word found. *)
Theorem analyzeDomain_failed_snapshots
  (Dom : Type) (importCheerio : Res (ModuleNamespace Dom))
  (regExpMeta : jsString -> jsString -> Res nat) (client : WaybackClient)
  (domain : jsString) (stopWords : list jsString) (maxSnapshots : nat)
  (snapshots : list Snapshot.t) :
  getSnapshots client domain maxSnapshots = Ok snapshots ->
  snapshots <> [] ->
  Forall (fun s =>
            match getSnapshotHtml client s with
            | Throw _ => True
            | Ok h =>
                exists e,
                  analyzeHtmlForSpam importCheerio regExpMeta
                    (HtmlResult.html h) stopWords = Throw e
            end) snapshots ->
  exists a,
    analyzeDomainForSpam importCheerio regExpMeta client domain stopWords
      maxSnapshots = Ok (Analysed a) /\
    DomainAnalysis.snapshotsChecked a = length snapshots /\
    DomainAnalysis.spamSnapshots a = 0 /\
    DomainAnalysis.spamDetected a = false /\
    DomainAnalysis.status a = clean /\
    DomainAnalysis.stopWordsFound a = [] /\
    DomainAnalysis.firstSpamDate a = None.
Proof.
  intros G N F.
  destruct (analyzeDomain_nothing_flagged importCheerio regExpMeta client
              domain stopWords maxSnapshots G N) as [a H].
  - apply (Forall_impl _ (P := fun s =>
            match getSnapshotHtml client s with
            | Throw _ => True
            | Ok h =>
                exists e,
                  analyzeHtmlForSpam importCheerio regExpMeta
                    (HtmlResult.html h) stopWords = Throw e
            end)); [| exact F].
    intros s Hs. unfold flagged, analysisOf, bind.
    destruct (getSnapshotHtml client s) as [h | e]; [| reflexivity].
    destruct Hs as [e ->]. reflexivity.
  - exists a. tauto.
Qed.

(** X14.  With an empty stop-word list no page is flagged: every domain
    that has snapshots is reported [clean]. *)
Theorem analyzeDomain_no_stop_words
  (Dom : Type) (importCheerio : Res (ModuleNamespace Dom))
  (regExpMeta : jsString -> jsString -> Res nat) (client : WaybackClient)
  (domain : jsString) (maxSnapshots : nat) (snapshots : list Snapshot.t) :
  getSnapshots client domain maxSnapshots = Ok snapshots ->
  snapshots <> [] ->
  exists a,
    analyzeDomainForSpam importCheerio regExpMeta client domain []
      maxSnapshots = Ok (Analysed a) /\
    DomainAnalysis.snapshotsChecked a = length snapshots /\
    DomainAnalysis.spamDetected a = false /\
    DomainAnalysis.status a = clean /\
    DomainAnalysis.stopWordsFound a = [].
Proof.
  intros G N.
  destruct (analyzeDomain_nothing_flagged importCheerio regExpMeta client
              domain [] maxSnapshots G N) as [a H].
  - apply Forall_forall. intros s _. unfold flagged.
    destruct (analysisOf importCheerio regExpMeta client [] s)
      as [a |] eqn:A; [| reflexivity].
    destruct (analysisOf_analyzed _ _ _ _ _ A) as [h [_ E]].
    destruct (analyzeHtmlForSpam_result _ _ _ _ E)
      as [t [_ [_ [C [_ [_ S]]]]]].
    rewrite S. unfold checkStopWords in C.
    rewrite orb_true_r in C. inversion C. reflexivity.
  - exists a. tauto.
Qed.

(** X15.  [analyzeDomainForSpam] throws exactly when the client fails to
    list the snapshots, and then with the message of the client behind
    the prefix [Domain analysis failed: ]; a snapshot that cannot be
    fetched or analysed never makes it throw. *)
Theorem analyzeDomain_throws_iff
  (Dom : Type) (importCheerio : Res (ModuleNamespace Dom))
  (regExpMeta : jsString -> jsString -> Res nat) (client : WaybackClient)
  (domain : jsString) (stopWords : list jsString) (maxSnapshots : nat)
  (message : jsString) :
  analyzeDomainForSpam importCheerio regExpMeta client domain stopWords
    maxSnapshots = Throw message
  <-> exists e,
        getSnapshots client domain maxSnapshots = Throw e /\
        message = js "Domain analysis failed: " ++ e.
Proof.
  split.
  - destruct (getSnapshots client domain maxSnapshots)
      as [[|s l] | e] eqn:G.
    + rewrite (analyzeDomainForSpam_empty _ _ _ _ _ _ G). discriminate.
    + rewrite (analyzeDomainForSpam_analysed _ _ _ _ _ _ G);
        discriminate.
    + rewrite (analyzeDomainForSpam_throws _ _ _ _ _ _ G).
      intros H. inversion H. eauto.
  - intros [e [G ->]]. apply analyzeDomainForSpam_throws. exact G.
Qed.

(** ** The batch analyzer, further *)

Section BatchFurther.

Variable Dom : Type.
Variable importCheerio : Res (ModuleNamespace Dom).
Variable regExpMeta : jsString -> jsString -> Res nat.
Variable client : WaybackClient.
Variable stopWords : list jsString.
Variable maxSnapshots : nat.

Local Abbreviation recordFor' :=
  (recordFor importCheerio regExpMeta client stopWords maxSnapshots).

Lemma analyzeDomainsForSpam_map (domains : list jsString) :
  analyzeDomainsForSpam importCheerio regExpMeta client domains stopWords
    maxSnapshots
  = Ok (map recordFor' (filter truthy (map trim domains))).
Proof. unfold analyzeDomainsForSpam. apply analyzeEach_map. Qed.

(** The status of the record of a domain, by the answer of the client. *)
Lemma recordFor_status (domain : jsString) :
  match getSnapshots client domain maxSnapshots with
  | Throw _ => statusOf (recordFor' domain) = error
  | Ok [] => statusOf (recordFor' domain) = no_snapshots
  | Ok (_ :: _) =>
      statusOf (recordFor' domain) = clean \/
      statusOf (recordFor' domain) = suspicious \/
      statusOf (recordFor' domain) = spam
  end.
Proof.
  unfold recordFor.
  destruct (getSnapshots client domain maxSnapshots) as [[|s l] | e] eqn:G.
  - rewrite (analyzeDomainForSpam_empty _ _ _ _ _ _ G). reflexivity.
  - rewrite (analyzeDomainForSpam_analysed _ _ _ _ _ _ G);
      [| discriminate].
    unfold summarize. cbn [statusOf DomainAnalysis.status].
    destruct (geQ _ 50); [auto |]. destruct (gtQ _ 0); auto.
  - rewrite (analyzeDomainForSpam_throws _ _ _ _ _ _ G). reflexivity.
Qed.

End BatchFurther.

(** X16.  In the result of a batch, the status of each record tells what
    the client answered for the domain of the record: [error] exactly
    when listing its snapshots failed, [no_snapshots] exactly when the
    list was empty, and [clean], [suspicious] or [spam] otherwise. *)
Theorem analyzeDomains_statuses
  (Dom : Type) (importCheerio : Res (ModuleNamespace Dom))
  (regExpMeta : jsString -> jsString -> Res nat) (client : WaybackClient)
  (domains : list jsString) (stopWords : list jsString)
  (maxSnapshots : nat) :
  exists results,
    analyzeDomainsForSpam importCheerio regExpMeta client domains stopWords
      maxSnapshots = Ok results /\
    Forall (fun r =>
              (statusOf r = error
               <-> exists e,
                     getSnapshots client (domainOf r) maxSnapshots
                     = Throw e) /\
              (statusOf r = no_snapshots
               <-> getSnapshots client (domainOf r) maxSnapshots = Ok []) /\
              (statusOf r = clean \/ statusOf r = suspicious \/
               statusOf r = spam
               <-> exists s l,
                     getSnapshots client (domainOf r) maxSnapshots
                     = Ok (s :: l)))
      results.
Proof.
  eexists. split; [apply analyzeDomainsForSpam_map |].
  apply Forall_map. apply Forall_forall. intros d _.
  rewrite recordFor_domain.
  pose proof (recordFor_status importCheerio regExpMeta client stopWords
                maxSnapshots d) as S.
  destruct (getSnapshots client d maxSnapshots) as [[|s l] | e].
  - rewrite S. repeat split; try discriminate; try reflexivity.
    + intros [e H]. discriminate.
    + intros [H | [H | H]]; discriminate.
    + intros [s [l H]]. discriminate.
  - repeat split; try discriminate.
    + intros H. destruct S as [S | [S | S]]; congruence.
    + intros [e H]. discriminate.
    + intros H. destruct S as [S | [S | S]]; congruence.
    + intros _. eauto.
    + intros _. exact S.
  - rewrite S. repeat split; try discriminate; try reflexivity.
    + intros _. eauto.
    + intros [H | [H | H]]; discriminate.
    + intros [s [l H]]. discriminate.
Qed.

(** X17.  A batch analyses the domains [canHandle] accepts and skips the
    others: the domains of its records are the accepted domains of the
    input, trimmed, in order. *)
Theorem analyzeDomains_canHandle
  (Dom : Type) (importCheerio : Res (ModuleNamespace Dom))
  (regExpMeta : jsString -> jsString -> Res nat) (client : WaybackClient)
  (domains : list jsString) (stopWords : list jsString)
  (maxSnapshots : nat) :
  exists results,
    analyzeDomainsForSpam importCheerio regExpMeta client domains stopWords
      maxSnapshots = Ok results /\
    map domainOf results
    = map trim (filter (fun d => canHandle (JsString d)) domains).
Proof.
  eexists. split; [apply analyzeDomainsForSpam_map |].
  rewrite map_map.
  rewrite (map_ext _ (fun d => d))
    by (intros d; apply recordFor_domain).
  rewrite map_id. induction domains as [|d l IH]; [reflexivity |].
  cbn [map filter canHandle].
  replace (0 <? length (trim d)) with (truthy (trim d))
    by (destruct (trim d); reflexivity).
  destruct (truthy (trim d)); simpl; rewrite IH; reflexivity.
Qed.

(** ** The test method *)

(** The outcomes of [testWayback], by the answers of the client to the
    listing of 5 snapshots and to the fetch of the first one. *)
Lemma testWayback_outcomes (client : WaybackClient) (target : jsString) :
  match getSnapshots client target 5 with
  | Throw e =>
      testWayback client target
      = Throw (js "Wayback test failed: " ++ e)
  | Ok [] => testWayback client target = Ok (TestEmpty target 0)
  | Ok (first :: rest) =>
      match getSnapshotHtml client first with
      | Throw e =>
          testWayback client target
          = Throw (js "Wayback test failed: " ++ e)
      | Ok htmlResult =>
          testWayback client target
          = Ok (TestFirst target (S (length rest))
                  (Snapshot.timestamp first) (Snapshot.originalUrl first)
                  (HtmlResult.length htmlResult)
                  (HtmlResult.snapshotUrl htmlResult))
      end
  end.
Proof.
  unfold testWayback.
  destruct (getSnapshots client target 5) as [[|first rest] | e]; simpl;
    try reflexivity.
  destruct (getSnapshotHtml client first); reflexivity.
Qed.

(** X19.  [testWayback] and [analyzeDomainForSpam] with a limit of 5
    snapshots see the same list: the test reports no snapshot exactly
    when the analysis returns the record for no snapshot; when the test
    reports a first snapshot the analysis returns, having checked the
    number of snapshots the test counted; and when the analysis throws,
    the test throws as well, with the same message of the client behind
    its own prefix. *)
Theorem testWayback_agrees
  (Dom : Type) (importCheerio : Res (ModuleNamespace Dom))
  (regExpMeta : jsString -> jsString -> Res nat) (client : WaybackClient)
  (target : jsString) (stopWords : list jsString) :
  (testWayback client target = Ok (TestEmpty target 0)
   <-> exists r,
         analyzeDomainForSpam importCheerio regExpMeta client target
           stopWords 5 = Ok (Empty r)) /\
  (forall n t u l w,
      testWayback client target = Ok (TestFirst target n t u l w) ->
      exists a,
        analyzeDomainForSpam importCheerio regExpMeta client target
          stopWords 5 = Ok (Analysed a) /\
        DomainAnalysis.snapshotsChecked a = n) /\
  (forall message,
      analyzeDomainForSpam importCheerio regExpMeta client target
        stopWords 5 = Throw message ->
      exists e,
        message = js "Domain analysis failed: " ++ e /\
        testWayback client target
        = Throw (js "Wayback test failed: " ++ e)).
Proof.
  pose proof (testWayback_outcomes client target) as T.
  destruct (getSnapshots client target 5) as [[|s l] | e] eqn:G.
  - rewrite (analyzeDomainForSpam_empty _ _ _ _ _ _ G), T.
    split; [split; eauto |]. split; [intros; discriminate |].
    intros; discriminate.
  - rewrite (analyzeDomainForSpam_analysed _ _ _ _ _ _ G);
      [| discriminate].
    split; [| split].
    + split.
      * destruct (getSnapshotHtml client s); rewrite T; discriminate.
      * intros [r H]. discriminate.
    + intros n t u l' w H. eexists. split; [reflexivity |].
      destruct (getSnapshotHtml client s); rewrite T in H;
        [| discriminate].
      inversion H. reflexivity.
    + intros; discriminate.
  - rewrite (analyzeDomainForSpam_throws _ _ _ _ _ _ G), T.
    split; [| split].
    + split; [discriminate | intros [r H]; discriminate].
    + intros; discriminate.
    + intros message H. exists e. inversion H. split; reflexivity.
Qed.

(** ** The order of the words of a domain *)

Lemma insertByCount_withCount (c : nat) (x : StopWordMatch.t)
  (l : list StopWordMatch.t) :
  withCount c (insertByCount x l)
  = if StopWordMatch.count x =? c then x :: withCount c l
    else withCount c l.
Proof.
  unfold withCount. induction l as [|y l IH]; simpl.
  - destruct (StopWordMatch.count x =? c); reflexivity.
  - destruct (Nat.ltb_spec (StopWordMatch.count x) (StopWordMatch.count y))
      as [Lt | Ge]; simpl.
    + rewrite IH.
      destruct (Nat.eqb_spec (StopWordMatch.count x) c) as [Ex | Nx];
        [| reflexivity].
      destruct (Nat.eqb_spec (StopWordMatch.count y) c); [lia | reflexivity].
    + reflexivity.
Qed.

(** The sort is stable: it keeps the order of the entries that have the
    same count. *)
Lemma sortByCountDesc_stable (c : nat) (l : list StopWordMatch.t) :
  withCount c (sortByCountDesc l) = withCount c l.
Proof.
  induction l as [|x l IH]; [reflexivity |].
  cbn [sortByCountDesc fold_right]. fold (sortByCountDesc l).
  rewrite insertByCount_withCount, IH. unfold withCount. simpl.
  destruct (StopWordMatch.count x =? c); reflexivity.
Qed.

Lemma mapGet_existsb (m : WordMap) (w : jsString) :
  (match mapGet m w with Some _ => true | None => false end)
  = existsb (fun y => eqbStr y w) (keys m).
Proof.
  induction m as [|[k v] m IH]; simpl; [reflexivity |].
  destruct (eqbStr k w); [reflexivity | exact IH].
Qed.

Lemma keys_trackStopWords (found : list StopWordMatch.t) :
  forall m, keys (trackStopWords m found) = appendNew (keys m) (words found).
Proof.
  unfold trackStopWords, appendNew.
  induction found as [|item found IH]; intros m; simpl; [reflexivity |].
  rewrite IH, keys_mapSet, <- mapGet_existsb.
  destruct (mapGet m (StopWordMatch.word item)); reflexivity.
Qed.

Lemma keys_trackAll (founds : list (list StopWordMatch.t)) :
  forall m,
    keys (trackAll founds m)
    = appendNew (keys m) (concat (map words founds)).
Proof.
  unfold trackAll.
  induction founds as [|f founds IH]; intros m; simpl; [reflexivity |].
  rewrite IH, keys_trackStopWords. unfold appendNew.
  rewrite fold_left_app. reflexivity.
Qed.

Lemma entries_by_keys (m : WordMap) :
  NoDup (keys m) ->
  entries m
  = map (fun w => StopWordMatch.mk w (orZero (mapGet m w))) (keys m).
Proof.
  induction m as [|[k v] m IH]; intros N; [reflexivity |].
  inversion N as [|? ? Hk Hm]; subst. simpl.
  rewrite eqbStr_refl. simpl. f_equal.
  rewrite (IH Hm). apply map_ext_in. intros w Hw.
  destruct (eqbStr k w) eqn:E; [| reflexivity].
  apply eqbStr_eq in E. subst. contradiction.
Qed.

Lemma withCount_map (c : nat) (f : jsString -> nat) (l : list jsString) :
  words (withCount c (map (fun w => StopWordMatch.mk w (f w)) l))
  = filter (fun w => f w =? c) l.
Proof.
  unfold words, withCount. induction l as [|w l IH]; simpl; [reflexivity |].
  destruct (f w =? c); simpl; rewrite IH; reflexivity.
Qed.

(** X20.  In [stopWordsFound], the words that have the same cumulative
    count come in the order in which the loop first met them, snapshot
    after snapshot. *)
Theorem analyzeDomain_tie_order
  (Dom : Type) (importCheerio : Res (ModuleNamespace Dom))
  (regExpMeta : jsString -> jsString -> Res nat) (client : WaybackClient)
  (domain : jsString) (stopWords : list jsString) (maxSnapshots : nat)
  (snapshots : list Snapshot.t) :
  getSnapshots client domain maxSnapshots = Ok snapshots ->
  snapshots <> [] ->
  exists a,
    analyzeDomainForSpam importCheerio regExpMeta client domain stopWords
      maxSnapshots = Ok (Analysed a) /\
    forall c,
      words (withCount c (DomainAnalysis.stopWordsFound a))
      = filter
          (fun w =>
             mergedCount importCheerio regExpMeta client stopWords w
               snapshots =? c)
          (firstOccurrences
             (concat
                (map words
                   (spamFound importCheerio regExpMeta client stopWords
                      snapshots)))).
Proof.
  intros G N. eexists. split.
  { apply (analyzeDomainForSpam_analysed _ _ _ _ _ _ G N). }
  intros c. unfold summarize. cbn [DomainAnalysis.stopWordsFound].
  rewrite fold_allFoundStopWords. cbn [allFoundStopWords initialState].
  set (founds := spamFound importCheerio regExpMeta client stopWords
                   snapshots).
  rewrite sortByCountDesc_stable.
  rewrite entries_by_keys by (apply trackAll_NoDup; constructor).
  rewrite withCount_map, keys_trackAll. cbn [keys map].
  fold (firstOccurrences (concat (map words founds))).
  apply filter_ext_in. intros w Hw.
  rewrite trackAll_get. unfold mergedCount. fold founds.
  destruct (existsb (fun f => hasWord f w) founds) eqn:X.
  - reflexivity.
  - rewrite (occurrences_absent_all _ _ X). reflexivity.
Qed.

(** ** The fallback leaves no tag *)

Lemma replaceLoop_skip (matchAt : jsString -> option nat) (repl : jsString)
  (s : jsString) :
  forall skip,
    replaceLoop matchAt repl s skip
    = replaceAll matchAt repl (skipn skip s).
Proof.
  unfold replaceAll.
  induction s as [|c s IH]; intros [|k]; try reflexivity.
  cbn [replaceLoop skipn]. apply IH.
Qed.

Lemma replaceLoop_chars (matchAt : jsString -> option nat) (s : jsString) :
  forall skip x,
    In x (replaceLoop matchAt (js " ") s skip) -> In x s \/ x = " "%char.
Proof.
  induction s as [|c s IH]; intros skip x H; [destruct H |].
  cbn [replaceLoop] in H. destruct skip as [|k].
  - destruct (matchAt (c :: s)) as [[|k] |].
    + destruct H as [<- | H]; [left; left; reflexivity |].
      destruct (IH _ _ H); [left; right; assumption | auto].
    + destruct H as [<- | H]; [auto |].
      destruct (IH _ _ H); [left; right; assumption | auto].
    + destruct H as [<- | H]; [left; left; reflexivity |].
      destruct (IH _ _ H); [left; right; assumption | auto].
  - destruct (IH _ _ H); [left; right; assumption | auto].
Qed.

Lemma indexWhere_None (p : ascii -> bool) (s : jsString) :
  indexWhere p s = None <-> forall x, In x s -> p x = false.
Proof.
  induction s as [|c s IH]; simpl.
  - split; [intros _ x [] | reflexivity].
  - destruct (p c) eqn:P.
    + split; [discriminate |]. intros H.
      rewrite (H c (or_introl eq_refl)) in P. discriminate.
    + destruct (indexWhere p s) as [i |]; simpl.
      * split; [discriminate |]. intros H. exfalso.
        destruct IH as [_ IH].
        assert (C : Some i = None); [| discriminate C].
        apply IH. intros x Hx. apply H. right. exact Hx.
      * split; [| reflexivity]. intros _ x [<- | Hx]; [exact P |].
        destruct IH as [IH _]. apply (IH eq_refl x Hx).
Qed.

Lemma replaceAll_no_gt (matchAt : jsString -> option nat) (s : jsString) :
  indexWhere isGt s = None ->
  indexWhere isGt (replaceAll matchAt (js " ") s) = None.
Proof.
  rewrite !indexWhere_None. intros H x Hx.
  destruct (replaceLoop_chars _ _ _ _ Hx) as [I | ->];
    [apply H; exact I | reflexivity].
Qed.

Lemma isGt_not_isLt (c : ascii) : isGt c = true -> isLt c = false.
Proof.
  unfold isGt, isLt. intros H. apply N.eqb_eq in H. rewrite H. reflexivity.
Qed.

Lemma isGt_not_isSpace (c : ascii) : isGt c = true -> isSpace c = false.
Proof.
  unfold isGt, isSpace. intros H. apply N.eqb_eq in H. rewrite H.
  reflexivity.
Qed.

Lemma closedAtOnce_cases (s : jsString) :
  closedAtOnce s
  <-> indexWhere isGt s = None \/ exists c r, s = c :: r /\ isGt c = true.
Proof.
  unfold closedAtOnce. split; (intros [H | H]; [left; exact H | right]).
  - destruct s as [|c r]; [discriminate |]. simpl in H.
    destruct (isGt c) eqn:G; [eauto |].
    destruct (indexWhere isGt r); discriminate.
  - destruct H as [c [r [-> G]]]. simpl. rewrite G. reflexivity.
Qed.

(** The tags are replaced from left to right: what is left has none. *)
Lemma tags_closed (s : jsString) :
  closedAtOnce s -> closedAtOnce (replaceAll tagMatchAt (js " ") s).
Proof.
  rewrite !closedAtOnce_cases. intros [H | [c [r [-> G]]]].
  - left. apply replaceAll_no_gt. exact H.
  - right. unfold replaceAll. cbn [replaceLoop tagMatchAt].
    rewrite (isGt_not_isLt _ G). eauto.
Qed.

Lemma tagMatchAt_None (c : ascii) (rest : jsString) :
  tagMatchAt (c :: rest) = None <-> (isLt c = true -> closedAtOnce rest).
Proof.
  unfold closedAtOnce. simpl. destruct (isLt c).
  - destruct (indexWhere isGt rest) as [[|j] |]; split; intros H;
      try reflexivity; try discriminate; auto.
    destruct (H eq_refl); discriminate.
  - split; [intros _ H; discriminate | reflexivity].
Qed.

Lemma tags_removed (n : nat) :
  forall s, length s <= n ->
            noTagFrom (replaceAll tagMatchAt (js " ") s).
Proof.
  induction n as [|n IH]; intros s H.
  - destruct s; [exact I | simpl in H; lia].
  - destruct s as [|c s]; [exact I |]. simpl in H.
    unfold replaceAll. cbn [replaceLoop].
    destruct (tagMatchAt (c :: s)) as [[|k] |] eqn:M.
    + unfold tagMatchAt in M. destruct (isLt c); [| discriminate].
      destruct (indexWhere isGt s) as [[|j] |]; discriminate.
    + rewrite replaceLoop_skip. cbn [app js list_ascii_of_string noTagFrom].
      split; [intros X; discriminate |].
      apply IH. rewrite length_skipn. lia.
    + cbn [noTagFrom]. split.
      * intros L. apply tags_closed. apply tagMatchAt_None in M; auto.
      * apply IH. lia.
Qed.

Lemma noTagFrom_suffix (a b : jsString) : noTagFrom (a ++ b) -> noTagFrom b.
Proof.
  induction a as [|c a IH]; [auto |]. simpl. intros [_ H]. auto.
Qed.

Lemma closedAtOnce_prefix (r a : jsString) :
  closedAtOnce (r ++ a) -> closedAtOnce r.
Proof.
  rewrite !closedAtOnce_cases. intros [H | [c [t [E G]]]].
  - left. rewrite indexWhere_None in *. intros x Hx. apply H.
    apply in_or_app. left. exact Hx.
  - destruct r as [|d r]; [left; reflexivity |].
    right. inversion E; subst. eauto.
Qed.

Lemma noTagFrom_prefix (m a : jsString) : noTagFrom (m ++ a) -> noTagFrom m.
Proof.
  induction m as [|c m IH]; [intros _; exact I |].
  simpl. intros [H1 H2]. split; [| auto].
  intros L. apply (closedAtOnce_prefix _ a). auto.
Qed.

Lemma collapse_closed (s : jsString) :
  closedAtOnce s -> closedAtOnce (replaceAll spaceMatchAt (js " ") s).
Proof.
  rewrite !closedAtOnce_cases. intros [H | [c [r [-> G]]]].
  - left. apply replaceAll_no_gt. exact H.
  - right. rewrite collapse_cons, (isGt_not_isSpace _ G). eauto.
Qed.

Lemma trimStart_noTagFrom (s : jsString) :
  noTagFrom s -> noTagFrom (trimStart s).
Proof.
  destruct (trimStart_suffix s) as [b [E _]]. intros H.
  rewrite E in H. apply (noTagFrom_suffix _ _ H).
Qed.

Lemma collapse_noTagFrom (n : nat) :
  forall s, length s <= n -> noTagFrom s ->
            noTagFrom (replaceAll spaceMatchAt (js " ") s).
Proof.
  induction n as [|n IH]; intros s H T.
  - destruct s; [exact I | simpl in H; lia].
  - destruct s as [|c s]; [exact I |]. simpl in H.
    destruct T as [T1 T2]. rewrite collapse_cons.
    destruct (isSpace c) eqn:W.
    + split; [intros X; discriminate |].
      apply IH; [pose proof (trimStart_length s); lia |].
      apply trimStart_noTagFrom. exact T2.
    + split; [| apply IH; [lia | exact T2]].
      intros L. apply collapse_closed. auto.
Qed.

Lemma isGt_toLowerChar (c : ascii) : isGt (toLowerChar c) = isGt c.
Proof. destruct c as [[] [] [] [] [] [] [] []]; reflexivity. Qed.

Lemma isLt_toLowerChar (c : ascii) : isLt (toLowerChar c) = isLt c.
Proof. destruct c as [[] [] [] [] [] [] [] []]; reflexivity. Qed.

Lemma indexWhere_toLowerCase (s : jsString) :
  indexWhere isGt (toLowerCase s) = indexWhere isGt s.
Proof.
  induction s as [|c s IH]; [reflexivity |].
  cbn [toLowerCase map indexWhere]. fold (toLowerCase s).
  rewrite isGt_toLowerChar, IH. reflexivity.
Qed.

Lemma toLowerCase_noTagFrom (s : jsString) :
  noTagFrom s -> noTagFrom (toLowerCase s).
Proof.
  induction s as [|c s IH]; [auto |].
  cbn [toLowerCase map noTagFrom]. fold (toLowerCase s).
  intros [H1 H2]. split; [| auto].
  rewrite isLt_toLowerChar. intros L. unfold closedAtOnce.
  rewrite indexWhere_toLowerCase. apply (H1 L).
Qed.

Lemma noTagFrom_tagFree (s : jsString) : noTagFrom s -> tagFree s.
Proof.
  intros H before rest E. rewrite E in H. apply noTagFrom_suffix in H.
  destruct rest as [|c r]; [reflexivity |].
  apply tagMatchAt_None. destruct H as [H _]. exact H.
Qed.

Lemma fallbackText_noTagFrom (html : jsString) :
  noTagFrom (fallbackText html).
Proof.
  unfold fallbackText.
  set (stripped := replaceAll (blockMatchAt (js "style")) []
                     (replaceAll (blockMatchAt (js "script")) [] html)).
  pose proof (@tags_removed (length stripped) stripped (le_n _)) as T.
  set (untagged := replaceAll tagMatchAt (js " ") stripped) in *.
  pose proof (@collapse_noTagFrom (length untagged) untagged (le_n _) T) as C.
  destruct (trim_segment (replaceAll spaceMatchAt (js " ") untagged))
    as [b [a E]].
  rewrite E in C. apply noTagFrom_suffix, noTagFrom_prefix in C.
  apply toLowerCase_noTagFrom. exact C.
Qed.

(** X21.  The text of the fallback contains no tag: at no position does
    it hold a [<] followed by one or more characters other than [>] and
    then a [>].  So it is for the text [extractTextContent] returns
    whenever the structured path throws. *)
Theorem fallbackText_tagFree
  (Dom : Type) (importCheerio : Res (ModuleNamespace Dom)) (html : jsString) :
  tagFree (fallbackText html) /\
  (forall e, structuredText importCheerio html = Throw e ->
             exists txt,
               extractTextContent importCheerio html = Ok txt /\
               tagFree txt).
Proof.
  split.
  - apply noTagFrom_tagFree. apply fallbackText_noTagFrom.
  - intros e H. rewrite extractTextContent_value, H. eexists.
    split; [reflexivity |].
    apply noTagFrom_tagFree. apply fallbackText_noTagFrom.
Qed.

(** ** The fallback, step by step *)

































(** ** Further examples *)

Lemma checkStopWords_order_witness :
  exists r,
    checkStopWords rejectMeta (js "buy cheap pills now")
      [js "pills"; js " BUY "; js "buy"; js "nothing"] = Ok r /\
    words (ScoreResult.found r) = [js "pills"; js "buy"].
Proof.
  destruct (checkStopWords rejectMeta (js "buy cheap pills now")
              [js "pills"; js " BUY "; js "buy"; js "nothing"])
    as [r | e] eqn:E.
  - exists r. split; [reflexivity |].
    rewrite (@checkStopWords_order rejectMeta _ _ r E).
    vm_compute. reflexivity.
  - vm_compute in E. discriminate.
Defined.

Lemma checkStopWords_literal_counts_witness :
  exists r,
    checkStopWords rejectMeta (js "aaaa now") [js "aa"; js "NOW"] = Ok r /\
    map StopWordMatch.count (ScoreResult.found r) = [2; 1].
Proof.
  destruct (@checkStopWords_literal_counts rejectMeta (js "aaaa now")
              [js "aa"; js "NOW"]) as [r [E F]].
  - repeat constructor.
  - exists r. split; [exact E |].
    vm_compute in E. inversion E. reflexivity.
Defined.

Lemma checkStopWords_text_case_witness :
  exists r r',
    checkStopWords rejectMeta (toLowerCase (js "BUY Now")) [js "buy"]
    = Ok r /\
    checkStopWords rejectMeta (js "BUY Now") [js "buy"] = Ok r' /\
    words (ScoreResult.found r) = words (ScoreResult.found r') /\
    ScoreResult.count r = ScoreResult.count r'.
Proof.
  eexists. eexists.
  split; [vm_compute; reflexivity |]. split; [vm_compute; reflexivity |].
  apply (@checkStopWords_text_case rejectMeta (js "BUY Now") [js "buy"]);
    vm_compute; reflexivity.
Defined.

Lemma checkStopWords_score_formula_witness :
  exists r,
    checkStopWords rejectMeta (js " buy ") [js "buy"] = Ok r /\
    within (1 # 100) (ScoreResult.score r)
      (Qmin 100 (ofNat 1 / ofNat 3 * 100))%Q.
Proof.
  destruct (checkStopWords rejectMeta (js " buy ") [js "buy"])
    as [r | e] eqn:E.
  - exists r. split; [reflexivity |].
    destruct (@checkStopWords_score_formula rejectMeta (js " buy ")
                [js "buy"] r E) as [F _]; try discriminate.
    vm_compute in E. inversion E; subst r. exact F.
  - vm_compute in E. discriminate.
Defined.

Lemma analyzeHtmlForSpam_flag_witness :
  exists a,
    analyzeHtmlForSpam cheerioMissing rejectMeta cleanPage [js "buy"]
    = Ok a /\
    HtmlAnalysis.isSpam a = false /\
    ScoreResult.found (HtmlAnalysis.stopWords a) = [] /\
    (HtmlAnalysis.spamScore a == 0)%Q.
Proof.
  destruct (analyzeHtmlForSpam cheerioMissing rejectMeta cleanPage
              [js "buy"]) as [a | e] eqn:E.
  - exists a. split; [reflexivity |].
    destruct (@analyzeHtmlForSpam_flag unit cheerioMissing rejectMeta
                cleanPage [js "buy"] a E) as [_ [_ [_ [_ F]]]].
    assert (S : HtmlAnalysis.isSpam a = false).
    { vm_compute in E. inversion E. reflexivity. }
    split; [exact S |]. destruct (F S) as [F1 [_ F3]]. auto.
  - vm_compute in E. discriminate.
Defined.

Lemma analyzeHtmlForSpam_score_witness :
  exists a,
    analyzeHtmlForSpam cheerioMissing rejectMeta halfSpamPage [js "buy"]
    = Ok a /\
    within (1 # 100) (HtmlAnalysis.spamScore a)
      (specRatio (js "buy x")
         (ScoreResult.found (HtmlAnalysis.stopWords a))).
Proof.
  destruct (analyzeHtmlForSpam cheerioMissing rejectMeta halfSpamPage
              [js "buy"]) as [a | e] eqn:E.
  - exists a. split; [reflexivity |].
    assert (M : HtmlAnalysis.metaTags a = emptyMetaTags).
    { vm_compute in E. inversion E. reflexivity. }
    destruct (@analyzeHtmlForSpam_score unit cheerioMissing rejectMeta
                halfSpamPage [js "buy"] a E) as [t [X [_ [_ S]]]];
      try (rewrite M; reflexivity); try discriminate.
    vm_compute in X. inversion X; subst t. rewrite M in S.
    apply S. vm_compute. discriminate.
  - vm_compute in E. discriminate.
Defined.

Lemma analyzeDomain_consistent_witness :
  exists a,
    runDomain (archive [js "4"; js "1"; js "4"] pages) (js "a.example") 10
    = Ok (Analysed a) /\
    DomainAnalysis.spamSnapshots a = 1 /\
    DomainAnalysis.snapshotsChecked a = 3 /\
    DomainAnalysis.spamDetected a = true /\
    DomainAnalysis.status a = suspicious.
Proof.
  edestruct (@analyzeDomain_consistent unit cheerioMissing rejectMeta
               (archive [js "4"; js "1"; js "4"] pages)
               (js "a.example") [js "buy"] 10)
    as [a [E _]].
  - vm_compute. reflexivity.
  - discriminate.
  - exists a. split; [exact E |].
    vm_compute in E. inversion E; subst. repeat split.
Defined.

Lemma analyzeDomain_bounds_witness :
  exists a,
    runDomain (archive [js "1"; js "2"; js "3"] pages) (js "a.example") 10
    = Ok (Analysed a) /\
    (DomainAnalysis.avgSpamScore a <= 100)%Q /\
    (DomainAnalysis.spamPercentage a <= 100)%Q.
Proof.
  edestruct (@analyzeDomain_bounds unit cheerioMissing rejectMeta
               (archive [js "1"; js "2"; js "3"] pages)
               (js "a.example") [js "buy"] 10)
    as [a [E [_ [P [_ A]]]]].
  - vm_compute. reflexivity.
  - discriminate.
  - exists a. auto.
Defined.

Lemma analyzeDomain_firstSpamDate_witness :
  exists a,
    runDomain (archive [js "4"; js "3"; js "1"] pages) (js "a.example") 10
    = Ok (Analysed a) /\
    DomainAnalysis.firstSpamDate a = Some (js "3").
Proof.
  edestruct (@analyzeDomain_firstSpamDate unit cheerioMissing rejectMeta
               (archive [js "4"; js "3"; js "1"] pages)
               (js "a.example") [js "buy"] 10)
    as [a [E D]].
  - vm_compute. reflexivity.
  - discriminate.
  - repeat constructor; discriminate.
  - exists a. split; [exact E |]. rewrite D. vm_compute. reflexivity.
Defined.

Lemma analyzeDomain_failed_snapshots_witness :
  exists a,
    runDomain (unreachable [js "1"; js "2"]) (js "a.example") 10
    = Ok (Analysed a) /\
    DomainAnalysis.snapshotsChecked a = 2 /\
    DomainAnalysis.status a = clean.
Proof.
  edestruct (@analyzeDomain_failed_snapshots unit cheerioMissing rejectMeta
               (unreachable [js "1"; js "2"])
               (js "a.example") [js "buy"] 10)
    as [a [E [C [_ [_ [S _]]]]]].
  - vm_compute. reflexivity.
  - discriminate.
  - repeat constructor.
  - exists a. split; [exact E |]. split; [rewrite C; reflexivity | exact S].
Defined.

Lemma analyzeDomain_no_stop_words_witness :
  exists a,
    analyzeDomainForSpam cheerioMissing rejectMeta
      (archive [js "1"; js "2"] pages) (js "a.example") [] 10
    = Ok (Analysed a) /\
    DomainAnalysis.status a = clean.
Proof.
  edestruct (@analyzeDomain_no_stop_words unit cheerioMissing rejectMeta
               (archive [js "1"; js "2"] pages) (js "a.example") 10)
    as [a [E [_ [_ [S _]]]]].
  - vm_compute. reflexivity.
  - discriminate.
  - exists a. split; [exact E | exact S].
Defined.

Lemma analyzeDomain_tie_order_witness :
  exists a,
    analyzeDomainForSpam cheerioMissing rejectMeta
      (archive [js "3"; js "4"] pages) (js "a.example")
      [js "x"; js "buy"] 10
    = Ok (Analysed a) /\
    words (withCount 1 (DomainAnalysis.stopWordsFound a))
    = [js "x"; js "buy"].
Proof.
  edestruct (@analyzeDomain_tie_order unit cheerioMissing rejectMeta
               (archive [js "3"; js "4"] pages) (js "a.example")
               [js "x"; js "buy"] 10)
    as [a [E T]].
  - vm_compute. reflexivity.
  - discriminate.
  - exists a. split; [exact E |].
    rewrite T. vm_compute. reflexivity.
Defined.
